(** * Countable.js: counting text and tracking live elements

    A shallow embedding of [src/Countable.js].  JavaScript strings are
    sequences of 16-bit code units, modelled as [list Z]; the regular
    expressions of [_count] are modelled as anchored greedy matchers driven
    by one scanning engine for the [g] flag; the DOM, the array
    [_liveElements] and the console are fields of an explicit world that
    the public methods [live], [die], [once] and [enabled] thread through.

    What lies outside the file is taken as follows.  [querySelectorAll] is
    a total function of the selector string; user callbacks are opaque,
    each call being logged with what it could observe; white space is the
    class of current ECMAScript editions.

    The model covers the calls that run to their end.  Outside it are a
    string that [querySelectorAll] rejects with an exception, an element
    whose [value] is not a string (where [_count] throws after the entry
    is pushed and before the listener is attached), and a callback that
    throws or calls back into Countable. *)

From Stdlib Require Import ZArith List Bool Lia.
Import ListNotations.

Open Scope Z_scope.

(** ** Strings and regular expressions *)

Module Text.

Definition code_unit := Z.
Definition jsstring := list code_unit.

(** A string is truthy exactly when it is not empty. *)
Definition truthy (s : jsstring) : bool :=
  match s with
  | [] => false
  | _ :: _ => true
  end.

(** *** Character classes *)

(** [\s]: WhiteSpace and LineTerminator of ECMAScript. *)
Definition is_space (c : code_unit) : bool :=
  (c =? 0x09) || (c =? 0x0A) || (c =? 0x0B) || (c =? 0x0C) || (c =? 0x0D)
  || (c =? 0x20) || (c =? 0xA0) || (c =? 0x1680)
  || ((0x2000 <=? c) && (c <=? 0x200A))
  || (c =? 0x2028) || (c =? 0x2029) || (c =? 0x202F) || (c =? 0x205F)
  || (c =? 0x3000) || (c =? 0xFEFF).

(** [\S] *)
Definition is_nonspace (c : code_unit) : bool := negb (is_space c).

(** [\n] *)
Definition is_lf (c : code_unit) : bool := c =? 0x0A.

(** [[\n\r]] *)
Definition is_line_terminator (c : code_unit) : bool :=
  (c =? 0x0A) || (c =? 0x0D).

(** The punctuation class of the word count: apostrophe, quotation mark,
    semicolon, colon, comma, full stop, question mark, inverted question
    mark, hyphen, exclamation mark, inverted exclamation mark. *)
Definition is_punctuation (c : code_unit) : bool :=
  (c =? 0x27) || (c =? 0x22) || (c =? 0x3B) || (c =? 0x3A) || (c =? 0x2C)
  || (c =? 0x2E) || (c =? 0x3F) || (c =? 0xBF) || (c =? 0x2D) || (c =? 0x21)
  || (c =? 0xA1).

(** [[a-z]] under the [i] flag: without the [u] flag no character outside
    ASCII canonicalizes to an ASCII letter. *)
Definition is_letter (c : code_unit) : bool :=
  ((0x61 <=? c) && (c <=? 0x7A)) || ((0x41 <=? c) && (c <=? 0x5A)).

(** *** Anchored matchers

    A regular expression is represented by its matcher at the head of the
    input: [Some n] when the (greedy, backtracking) match succeeds there
    and consumes [n] code units, [None] when it fails there. *)

Definition regex := jsstring -> option nat.

Fixpoint run_length (p : code_unit -> bool) (s : jsstring) : nat :=
  match s with
  | c :: r => if p c then S (run_length p r) else O
  | [] => O
  end.

(** [[p]] : one character of the class. *)
Definition re_one (p : code_unit -> bool) : regex :=
  fun s =>
    match s with
    | c :: _ => if p c then Some 1%nat else None
    | [] => None
    end.

(** [[p]{min,}] : a greedy run of the class, at least [min] long. *)
Definition re_repeat (min : nat) (p : code_unit -> bool) : regex :=
  fun s =>
    let n := run_length p s in
    if (min <=? n)%nat then Some n else None.

(** Number of code units up to and including the first [>]. *)
Fixpoint find_gt (s : jsstring) : option nat :=
  match s with
  | c :: r =>
      if c =? 0x3E then Some 1%nat
      else match find_gt r with
           | Some k => Some (S k)
           | None => None
           end
  | [] => None
  end.

(** [/<\/?[a-z][^>]*>/i].  Backtracking never finds another match: giving
    the slash back leaves [/] where a letter is required, and shortening
    [[^>]*] leaves a character other than [>] where [>] is required. *)
Definition re_tag : regex :=
  fun s =>
    match s with
    | c0 :: r =>
        if c0 =? 0x3C then
          let '(slash, r1) :=
            match r with
            | c1 :: r' => if c1 =? 0x2F then (1%nat, r') else (0%nat, r)
            | [] => (0%nat, r)
            end in
          match r1 with
          | l :: r2 =>
              if is_letter l then
                match find_gt r2 with
                | Some k => Some (1 + slash + 1 + k)%nat
                | None => None
                end
              else None
          | [] => None
          end
        else None
    | [] => None
    end.

(** *** The [g] flag

    [skip] is the number of code units of the current match that are still
    to be consumed.  An empty match is recorded and the scan moves on by
    one code unit. *)

(** [s.replace(re, '')] for a global [re]. *)
Fixpoint replace_g (re : regex) (skip : nat) (s : jsstring) : jsstring :=
  match s with
  | [] => []
  | c :: r =>
      match skip with
      | S k => replace_g re k r
      | O =>
          match re s with
          | Some (S n) => replace_g re n r
          | _ => c :: replace_g re O r
          end
      end
  end.

(** [(s.match(re) || []).length] for a global [re]. *)
Fixpoint match_g_length (re : regex) (skip : nat) (s : jsstring) : nat :=
  match s with
  | [] =>
      match skip, re [] with
      | O, Some _ => 1%nat
      | _, _ => 0%nat
      end
  | c :: r =>
      match skip with
      | S k => match_g_length re k r
      | O =>
          match re s with
          | Some (S n) => S (match_g_length re n r)
          | Some O => S (match_g_length re O r)
          | None => match_g_length re O r
          end
      end
  end.

(** *** [String.prototype.trim] *)

Fixpoint drop_space (s : jsstring) : jsstring :=
  match s with
  | c :: r => if is_space c then drop_space r else s
  | [] => []
  end.

Definition trim (s : jsstring) : jsstring :=
  rev (drop_space (rev (drop_space s))).

(** *** [_decode] (lines 69-98)

    The [while] loop over [counter] becomes recursion on the code units
    that are left; [counter < length] is "the rest is not empty". *)
Fixpoint _decode (string : jsstring) : list Z :=
  match string with
  | [] => []
  | value :: rest =>
      match rest with
      | extra :: rest' =>
          if Z.land value 0xF800 =? 0xD800 then
            if Z.land extra 0xFC00 =? 0xDC00 then
              (Z.shiftl (Z.land value 0x3FF) 10 + Z.land extra 0x3FF + 0x10000)
                :: _decode rest'
            else value :: extra :: _decode rest'
          else value :: _decode rest
      | [] => value :: _decode rest
      end
  end.

End Text.

(** ** The counter *)

Module Counter.
Import Text.

(** The options object after [_extendDefaults]; only the truthiness of the
    two properties is ever used. *)
Record options := { hardReturns : bool; stripTags : bool }.

(** The [options] argument of the public methods: each recognised key is
    absent ([None]) or present.  [undefined] is the object with no key. *)
Record options_arg :=
  { arg_hardReturns : option bool; arg_stripTags : option bool }.

Definition no_options : options_arg :=
  {| arg_hardReturns := None; arg_stripTags := None |}.

(** [_extendDefaults] (lines 153-161). *)
Definition _extendDefaults (o : options_arg) : options :=
  {| hardReturns := match arg_hardReturns o with Some b => b | None => false end;
     stripTags := match arg_stripTags o with Some b => b | None => false end |}.

(** The object returned by [_count]. *)
Record CountResult :=
  { paragraphs : nat; words : nat; characters : nat; all : nat }.

(** [original] after line 188: tags are stripped on request. *)
Definition strip (value : jsstring) (ops : options) : jsstring :=
  if stripTags ops then replace_g re_tag 0 value else value.

(** The body of [_count] (lines 188-203) once [original] has been read
    from the element. *)
Definition count_text (value : jsstring) (ops : options) : CountResult :=
  let original := strip value ops in
  let trimmed := trim original in
  {| paragraphs :=
       if truthy trimmed then
         (match_g_length
            (if hardReturns ops then re_repeat 2 is_lf else re_repeat 1 is_lf)
            0 trimmed + 1)%nat
       else 0%nat;
     words :=
       if truthy trimmed then
         match_g_length (re_repeat 1 is_nonspace) 0
           (replace_g (re_repeat 1 is_punctuation) 0 trimmed)
       else 0%nat;
     characters :=
       if truthy trimmed then
         length (_decode (replace_g (re_one is_space) 0 trimmed))
       else 0%nat;
     all := length (_decode (replace_g (re_one is_line_terminator) 0 original)) |}.

(** [count(t, cfg)] of the specification: the text of the element is [t]
    and [cfg] is the options argument of the public method. *)
Definition count (t : jsstring) (cfg : options_arg) : CountResult :=
  count_text t (_extendDefaults cfg).

End Counter.

(** ** The registry of live elements *)

Module Registry.
Import Text Counter.

(** *** JavaScript values that reach the public methods *)

(** A DOM node is known by its identity. *)
Definition elem := nat.

Inductive jsval :=
| VUndefined
| VNull
| VBoolean (b : bool)
| VNumber (n : Z)
| VString (s : jsstring)
| VFunction (f : nat)
| VNode (n : elem)
| VCountable.

Inductive jstype :=
| TUndefined | TObject | TBoolean | TNumber | TString | TFunction.

Definition typeof (v : jsval) : jstype :=
  match v with
  | VUndefined => TUndefined
  | VNull => TObject
  | VBoolean _ => TBoolean
  | VNumber _ => TNumber
  | VString _ => TString
  | VFunction _ => TFunction
  | VNode _ => TObject
  | VCountable => TObject
  end.

Definition is_string (v : jsval) : bool :=
  match typeof v with TString => true | _ => false end.

Definition is_function (v : jsval) : bool :=
  match typeof v with TFunction => true | _ => false end.

Definition to_boolean (v : jsval) : bool :=
  match v with
  | VUndefined | VNull => false
  | VBoolean b => b
  | VNumber n => negb (n =? 0)
  | VString s => truthy s
  | VFunction _ | VNode _ | VCountable => true
  end.

(** How a call of a public method completes. *)
Inductive completion :=
| Return (v : jsval)
| Throw.

(** *** The DOM *)

(** Which listener methods a node offers: [addEventListener] and
    [removeEventListener], or only [attachEvent] and [detachEvent], or
    none of them. *)
Inductive listen_api := W3C | LegacyIE | NoListenApi.

(** What [_count], [bind] and [enabled] read from a node.  [value] is
    [None] when the node has no property of that name. *)
Record node :=
  { nodeType : Z;
    api : listen_api;
    value : option jsstring;
    innerText : jsstring;
    textContent : jsstring }.

(** The function object [handler] created by one call of [bind]: its
    identity and the variables it closes over. *)
Record handler_fn :=
  { h_id : nat; h_element : elem; h_callback : nat; h_ops : options }.

(** Function objects are compared by identity. *)
Definition same_function (f g : handler_fn) : bool :=
  (h_id f =? h_id g)%nat.

(** An entry [{ element: element, handler: handler }] of [_liveElements].
    Each entry is created together with the function object it holds, so
    that function identifies the entry. *)
Record binding := { element : elem; handler : handler_fn }.

Definition same_binding (a b : binding) : bool :=
  same_function (handler a) (handler b).

(** One invocation of a user callback: the function, its receiver, its
    argument, and what the callback could observe of the registry and of
    the listeners of its receiver at that moment.  Callbacks are opaque:
    they are assumed to return normally and not to call back into
    Countable or the DOM. *)
Record call :=
  { call_function : nat;
    call_this : elem;
    call_result : CountResult;
    call_live : list binding;
    call_listeners : list handler_fn }.

Inductive diagnostic :=
| NotAValidSelector (selector : jsval)
| NoElementsFound (selector : jsval)
| NotAValidCallback (callback : jsval).

Record world :=
  { querySelectorAll : jsstring -> list elem;
    dom : elem -> node;
    console_warn : bool;
    _liveElements : list binding;
    listeners : elem -> list handler_fn;
    next_function : nat;
    warnings : list diagnostic;
    calls : list call }.

Definition set_liveElements (l : list binding) (w : world) : world :=
  {| querySelectorAll := querySelectorAll w; dom := dom w;
     console_warn := console_warn w; _liveElements := l;
     listeners := listeners w; next_function := next_function w;
     warnings := warnings w; calls := calls w |}.

Definition set_listeners (f : elem -> list handler_fn) (w : world) : world :=
  {| querySelectorAll := querySelectorAll w; dom := dom w;
     console_warn := console_warn w; _liveElements := _liveElements w;
     listeners := f; next_function := next_function w;
     warnings := warnings w; calls := calls w |}.

Definition set_next_function (n : nat) (w : world) : world :=
  {| querySelectorAll := querySelectorAll w; dom := dom w;
     console_warn := console_warn w; _liveElements := _liveElements w;
     listeners := listeners w; next_function := n;
     warnings := warnings w; calls := calls w |}.

Definition warn (d : diagnostic) (w : world) : world :=
  {| querySelectorAll := querySelectorAll w; dom := dom w;
     console_warn := console_warn w; _liveElements := _liveElements w;
     listeners := listeners w; next_function := next_function w;
     warnings := warnings w ++ [d]; calls := calls w |}.

Definition record_call (c : call) (w : world) : world :=
  {| querySelectorAll := querySelectorAll w; dom := dom w;
     console_warn := console_warn w; _liveElements := _liveElements w;
     listeners := listeners w; next_function := next_function w;
     warnings := warnings w; calls := calls w ++ [c] |}.

Definition update (f : elem -> list handler_fn) (e : elem)
  (l : list handler_fn) : elem -> list handler_fn :=
  fun x => if (x =? e)%nat then l else f x.

(** [addEventListener] ignores a listener that is already registered. *)
Definition addEventListener (e : elem) (h : handler_fn) (w : world) : world :=
  if existsb (same_function h) (listeners w e) then w
  else set_listeners (update (listeners w) e (listeners w e ++ [h])) w.

Definition attachEvent (e : elem) (h : handler_fn) (w : world) : world :=
  set_listeners (update (listeners w) e (listeners w e ++ [h])) w.

(** [removeEventListener] and [detachEvent]: the function is no longer
    registered afterwards. *)
Definition removeEventListener (e : elem) (h : handler_fn) (w : world) : world :=
  set_listeners
    (update (listeners w) e
       (filter (fun g => negb (same_function h g)) (listeners w e))) w.

Definition detachEvent := removeEventListener.

(** *** Private helpers *)

(** [_validateArguments] (lines 116-134). *)
Definition _validateArguments (selector : jsval) (elements : list elem)
  (callback : jsval) (w : world) : bool * world :=
  let selectorValid := is_string selector in
  let elementsValid := negb (length elements =? 0)%nat in
  let callbackValid := to_boolean callback && is_function callback in
  let w1 :=
    if console_warn w then
      let w' :=
        if negb selectorValid then warn (NotAValidSelector selector) w
        else if negb elementsValid then warn (NoElementsFound selector) w
        else w in
      if negb callbackValid then warn (NotAValidCallback callback) w' else w'
    else w in
  (selectorValid && elementsValid && callbackValid, w1).

(** The text [_count] reads from its element (line 178). *)
Definition element_text (n : node) : jsstring :=
  match value n with
  | Some v => v
  | None => if truthy (innerText n) then innerText n else textContent n
  end.

(** [_count] (lines 177-204). *)
Definition _count (element : node) (ops : options) : CountResult :=
  count_text (element_text element) ops.

(** [_query] (lines 217-220). *)
Definition _query (selector : jsval) (w : world) : list elem :=
  let selector' :=
    match selector with
    | VString s => s
    | _ => [0x263A]
    end in
  querySelectorAll w selector'.

(** [_loop] (lines 234-240) visits [which] from its last entry down to its
    first; [S] is whatever the callback reads and writes. *)
Definition _loop {S A : Type} (which : list A) (callback : A -> S -> S)
  (s : S) : S :=
  fold_right callback s which.

(** [callback.call(element, result)] for a callback that is function [f]. *)
Definition call_callback (f : nat) (this : elem) (result : CountResult)
  (w : world) : world :=
  record_call
    {| call_function := f; call_this := this; call_result := result;
       call_live := _liveElements w; call_listeners := listeners w this |} w.

(** Running the function object [handler] of [bind] (lines 276-278). *)
Definition run_handler (h : handler_fn) (w : world) : world :=
  call_callback (h_callback h) (h_element h)
    (_count (dom w (h_element h)) (h_ops h)) w.

(** *** Public methods *)

(** [bind] inside [live] (lines 275-289). *)
Definition bind (callback : nat) (ops : options) (element : elem)
  (w : world) : world :=
  let handler :=
    {| h_id := next_function w; h_element := element;
       h_callback := callback; h_ops := ops |} in
  let w1 := set_next_function (S (next_function w)) w in
  let w2 :=
    set_liveElements
      (_liveElements w1 ++ [{| element := element; handler := handler |}]) w1 in
  let w3 := run_handler handler w2 in
  match api (dom w3 element) with
  | W3C => addEventListener element handler w3
  | LegacyIE => attachEvent element handler w3
  | NoListenApi => w3
  end.

(** [live] (lines 272-296).  A handler can only run after validation, when
    [callback] is a function; [Throw] stands for calling anything else. *)
Definition live (selector callback : jsval) (options : options_arg)
  (w : world) : completion * world :=
  let elements := _query selector w in
  let ops := _extendDefaults options in
  let '(valid, w1) := _validateArguments selector elements callback w in
  if negb valid then (Return VUndefined, w1)
  else
    match callback with
    | VFunction f => (Return VCountable, _loop elements (bind f ops) w1)
    | _ => (Throw, w1)
    end.

(** [_liveElements.indexOf(liveElement)]: the first index holding that
    very object, or [-1]. *)
Fixpoint indexOf (l : list binding) (b : binding) : Z :=
  match l with
  | [] => -1
  | x :: r =>
      if same_binding x b then 0
      else let i := indexOf r b in if i <? 0 then -1 else i + 1
  end.

(** [array.splice(start, 1)]: a negative [start] counts from the end. *)
Definition splice1 {A : Type} (start : Z) (l : list A) : list A :=
  let len := Z.of_nat (length l) in
  let from :=
    if start <? 0 then Z.max (len + start) 0 else Z.min start len in
  firstn (Z.to_nat from) l ++ skipn (S (Z.to_nat from)) l.

(** The callback of the outer loop of [die] (lines 314-330). *)
Definition unbind (element : elem) (w : world) : world :=
  let liveElement :=
    _loop (_liveElements w)
      (fun live (found : option binding) =>
         if (Registry.element live =? element)%nat then Some live else found)
      None in
  match liveElement with
  | None => w
  | Some found =>
      let w1 :=
        match api (dom w element) with
        | W3C => removeEventListener element (handler found) w
        | LegacyIE => detachEvent element (handler found) w
        | NoListenApi => w
        end in
      set_liveElements
        (splice1 (indexOf (_liveElements w1) found) (_liveElements w1)) w1
  end.

(** [die] (lines 309-333).  The callback it validates is a function made
    on the spot, never stored and never called. *)
Definition die (selector : jsval) (w : world) : completion * world :=
  let elements := _query selector w in
  let '(valid, w1) :=
    _validateArguments selector elements (VFunction (next_function w)) w in
  if negb valid then (Return VUndefined, w1)
  else (Return VCountable, _loop elements unbind w1).

(** [once] (lines 356-366). *)
Definition once (selector callback : jsval) (options : options_arg)
  (w : world) : completion * world :=
  let elements := _query selector w in
  let '(valid, w1) := _validateArguments selector elements callback w in
  if negb valid then (Return VUndefined, w1)
  else
    match callback with
    | VFunction f =>
        (Return VCountable,
         _loop elements
           (fun element w' =>
              call_callback f element
                (_count (dom w' element) (_extendDefaults options)) w')
           w1)
    | _ => (Throw, w1)
    end.

(** [enabled] (lines 378-388).  Only a node can have [nodeType] equal to
    [1] and be identical to an entry's element. *)
Definition enabled (element : jsval) (w : world) : bool :=
  match element with
  | VNode n =>
      if nodeType (dom w n) =? 1 then
        _loop (_liveElements w)
          (fun live (isEnabled : bool) =>
             if (Registry.element live =? n)%nat then true else isEnabled)
          false
      else false
  | _ => false
  end.

(** *** The host platform *)

(** The platform delivers one change event ([input] or [keyup]) to a
    node: its registered listeners run in order of registration. *)
Definition dispatch (e : elem) (w : world) : world :=
  fold_left (fun w' h => run_handler h w') (listeners w e) w.

Definition set_dom (d : elem -> node) (w : world) : world :=
  {| querySelectorAll := querySelectorAll w; dom := d;
     console_warn := console_warn w; _liveElements := _liveElements w;
     listeners := listeners w; next_function := next_function w;
     warnings := warnings w; calls := calls w |}.

(** The user edits the text of a node; nothing else of the node changes. *)
Definition edit (e : elem) (s : jsstring) (w : world) : world :=
  set_dom
    (fun x =>
       if (x =? e)%nat then
         {| nodeType := nodeType (dom w e); api := api (dom w e);
            value := match value (dom w e) with
                     | Some _ => Some s
                     | None => None
                     end;
            innerText := match value (dom w e) with
                         | Some _ => innerText (dom w e)
                         | None => s
                         end;
            textContent := match value (dom w e) with
                           | Some _ => textContent (dom w e)
                           | None => s
                           end |}
       else dom w x) w.

(** A page before any call of Countable. *)
Definition initial (qsa : jsstring -> list elem) (d : elem -> node)
  (console : bool) : world :=
  {| querySelectorAll := qsa; dom := d; console_warn := console;
     _liveElements := []; listeners := fun _ => []; next_function := 0%nat;
     warnings := []; calls := [] |}.

End Registry.

(** ** Vocabulary of the statements *)

Module Vocabulary.
Import Text Counter Registry.

(** *** Well-formed UTF-16 *)

Definition is_surrogate (c : code_unit) : bool := Z.land c 0xF800 =? 0xD800.
Definition is_high_surrogate (c : code_unit) : bool := Z.land c 0xFC00 =? 0xD800.
Definition is_low_surrogate (c : code_unit) : bool := Z.land c 0xFC00 =? 0xDC00.

(** Every surrogate is a high one followed at once by a low one. *)
Fixpoint well_formed (s : jsstring) : bool :=
  match s with
  | [] => true
  | c :: r =>
      if is_surrogate c then
        is_high_surrogate c
        && match r with
           | l :: r' => is_low_surrogate l && well_formed r'
           | [] => false
           end
      else well_formed r
  end.

(** The only white space of [s] is line feeds and carriage returns. *)
Definition only_line_breaks (s : jsstring) : bool :=
  forallb (fun c => negb (is_space c) || is_line_terminator c) s.

Definition no_space (s : jsstring) : bool :=
  forallb is_nonspace s.

(** *** Sample texts *)

(** a, line feed, line feed, b *)
Definition a_nn_b : jsstring := [0x61; 0x0A; 0x0A; 0x62].
(** a, line feed, b *)
Definition a_n_b : jsstring := [0x61; 0x0A; 0x62].
(** U+1F600 twice, each a surrogate pair *)
Definition two_emoji : jsstring := [0xD83D; 0xDE00; 0xD83D; 0xDE00].
(** two low surrogates without a high one *)
Definition two_low_halves : jsstring := [0xDC00; 0xDC00].
(** a high surrogate on its own, a space, U+1F600 twice *)
Definition lone_high_space_two_emoji : jsstring :=
  [0xD800; 0x20; 0xD83D; 0xDE00; 0xD83D; 0xDE00].

Definition hard_returns (b : bool) : options_arg :=
  {| arg_hardReturns := Some b; arg_stripTags := None |}.

(** *** The registry and the listeners *)

Definition is_for (e : elem) (b : binding) : bool :=
  (element b =? e)%nat.

(** The entries of the registry for one element, oldest first. *)
Definition bindings_of (e : elem) (w : world) : list binding :=
  filter (is_for e) (_liveElements w).

(** The list without its first entry for an element. *)
Fixpoint remove_first (e : elem) (l : list binding) : list binding :=
  match l with
  | [] => []
  | b :: r => if is_for e b then r else b :: remove_first e r
  end.

(** The handlers of the entries for an element, if it can listen. *)
Definition expected_listeners (w : world) (e : elem) : list handler_fn :=
  match api (dom w e) with
  | NoListenApi => []
  | _ => map handler (bindings_of e w)
  end.

(** The identities of the functions held by a list of entries. *)
Definition ids (l : list binding) : list nat :=
  map (fun b => h_id (handler b)) l.

(** What [live] and [die] maintain: function identities are fresh and
    distinct, and the listeners of every element are the handlers of its
    entries. *)
Record consistent (w : world) : Prop :=
  { fresh :
      Forall (fun b => (h_id (handler b) < next_function w)%nat)
        (_liveElements w);
    distinct : NoDup (ids (_liveElements w));
    attached : forall e, listeners w e = expected_listeners w e }.

(** Validation as the three methods run it. *)
Definition valid (selector callback : jsval) (w : world) : bool :=
  fst (_validateArguments selector (_query selector w) callback w).

(** A call of one of the three methods that validate their arguments. *)
Inductive invocation :=
| Live (selector callback : jsval) (options : options_arg)
| Die (selector : jsval)
| Once (selector callback : jsval) (options : options_arg).

Definition invoke (m : invocation) (w : world) : completion * world :=
  match m with
  | Live selector callback options => live selector callback options w
  | Die selector => die selector w
  | Once selector callback options => once selector callback options w
  end.

Definition validation_of (m : invocation) (w : world) : bool :=
  match m with
  | Live selector callback _ | Once selector callback _ =>
      valid selector callback w
  | Die selector => valid selector (VFunction (next_function w)) w
  end.

(** The worlds a page comes to by calls that run to their end: it starts
    with no entry and no listener, scripts call the three methods, the
    user edits texts, the platform delivers change events.  A call that
    throws half-way and a callback that calls back into Countable are
    no steps of it. *)
Inductive reachable : world -> Prop :=
| reach_initial qsa d console : reachable (initial qsa d console)
| reach_invoke m w : reachable w -> reachable (snd (invoke m w))
| reach_edit e s w : reachable w -> reachable (edit e s w)
| reach_dispatch e w : reachable w -> reachable (dispatch e w).

(** The registry, the listeners and the callback log are the same. *)
Definition untouched (w w' : world) : Prop :=
  _liveElements w' = _liveElements w
  /\ listeners w' = listeners w
  /\ calls w' = calls w.

(** The world in which a recorded call ran, as far as [enabled] reads it. *)
Definition world_of_call (c : call) (w : world) : world :=
  set_liveElements (call_live c) w.

(** What one call of [bind] creates: the function object, the entry, and
    the first call of the callback. *)
Definition handler_of_bind (f : nat) (ops : options) (x : elem) (w : world)
  : handler_fn :=
  {| h_id := next_function w; h_element := x; h_callback := f; h_ops := ops |}.

Definition binding_of_bind (f : nat) (ops : options) (x : elem) (w : world)
  : binding :=
  {| element := x; handler := handler_of_bind f ops x w |}.

Definition call_of_bind (f : nat) (ops : options) (x : elem) (w : world)
  : call :=
  {| call_function := f; call_this := x;
     call_result := _count (dom w x) ops;
     call_live := _liveElements w ++ [binding_of_bind f ops x w];
     call_listeners := listeners w x |}.

(** *** A sample page *)

Definition textarea (s : jsstring) : node :=
  {| nodeType := 1; api := W3C; value := Some s;
     innerText := []; textContent := [] |}.

(** hi *)
Definition hi : jsstring := [0x68; 0x69].

(** The selector [a] finds elements 1 and 2, the selector [b] finds
    element 2, any other selector finds nothing. *)
Definition sample_page : world :=
  initial
    (fun s =>
       match s with
       | [0x61] => [1%nat; 2%nat]
       | [0x62] => [2%nat]
       | _ => []
       end)
    (fun _ => textarea hi) true.

(** The sample page after [live] on the selector [b], once and twice. *)
Definition bound_once : world :=
  snd (live (VString [0x62]) (VFunction 7) no_options sample_page).
Definition bound_twice : world :=
  snd (live (VString [0x62]) (VFunction 7) no_options bound_once).

Definition sel_a : jsval := VString [0x61].
Definition sel_b : jsval := VString [0x62].
Definition sel_none : jsval := VString [0x63].

End Vocabulary.

(** ** Vocabulary of the further properties *)

Module Coverage.
Import Text Counter Registry Vocabulary.

(** *** UTF-16 *)

(** A Unicode scalar value: a code point that is not a surrogate. *)
Definition is_scalar (cp : Z) : bool :=
  (0 <=? cp) && (cp <=? 0x10FFFF) && negb ((0xD800 <=? cp) && (cp <=? 0xDFFF)).

(** The UTF-16 form of a code point, as the Unicode standard defines it:
    one code unit below U+10000, a high and a low surrogate from there. *)
Definition encode_code_point (cp : Z) : jsstring :=
  if cp <? 0x10000 then [cp]
  else [0xD800 + Z.shiftr (cp - 0x10000) 10;
        0xDC00 + Z.land (cp - 0x10000) 0x3FF].

Definition utf16 (cps : list Z) : jsstring :=
  flat_map encode_code_point cps.

Definition is_code_unit (c : Z) : bool := (0 <=? c) && (c <? 0x10000).

Definition is_code_point (c : Z) : bool := (0 <=? c) && (c <=? 0x10FFFF).

(** *** Runs *)

(** The number of maximal runs of characters of a class; [inside] tells
    whether the character before the text belongs to the class. *)
Fixpoint runs (p : code_unit -> bool) (inside : bool) (s : jsstring) : nat :=
  match s with
  | [] => O
  | c :: r =>
      if p c then ((if inside then 0 else 1) + runs p true r)%nat
      else runs p false r
  end.

Definition is_lt_sign (c : code_unit) : bool := c =? 0x3C.

(** *** The registry *)

Definition selector_of (m : invocation) : jsval :=
  match m with
  | Live selector _ _ | Once selector _ _ => selector
  | Die selector => selector
  end.

(** The call a handler makes when it runs in a world. *)
Definition call_of_handler (w : world) (h : handler_fn) : call :=
  {| call_function := h_callback h; call_this := h_element h;
     call_result := _count (dom w (h_element h)) (h_ops h);
     call_live := _liveElements w;
     call_listeners := listeners w (h_element h) |}.

(** The call [once] makes for an element. *)
Definition call_of_once (f : nat) (ops : options) (w : world) (e : elem)
  : call :=
  {| call_function := f; call_this := e;
     call_result := _count (dom w e) ops;
     call_live := _liveElements w; call_listeners := listeners w e |}.

(** Every listener of an element is a handler made for that element. *)
Definition owned (w : world) : Prop :=
  forall e h, In h (listeners w e) -> h_element h = e.

(** The call of a handler on an element whose text is [s]. *)
Definition call_on_text (w : world) (e : elem) (s : jsstring)
  (h : handler_fn) : call :=
  {| call_function := h_callback h; call_this := e;
     call_result := count_text s (h_ops h);
     call_live := _liveElements w; call_listeners := listeners w e |}.

(** *** Sample texts *)

(** space, tab, line feed, space *)
Definition blank_text : jsstring := [0x20; 0x09; 0x0A; 0x20].
(** a, space, b *)
Definition a_b : jsstring := [0x61; 0x20; 0x62].
(** the code points of a, U+1F600, b *)
Definition a_emoji_b : list Z := [0x61; 0x1F600; 0x62].

End Coverage.

(** ** Facts about strings *)

Module TextFacts.
Import Text Counter Vocabulary.

Local Open Scope nat_scope.

Lemma replace_one_filter (p : code_unit -> bool) (s : jsstring) :
  replace_g (re_one p) 0 s = filter (fun c => negb (p c)) s.
Proof.
  induction s as [|c r IH]; simpl; [reflexivity|].
  destruct (p c); simpl; rewrite IH; reflexivity.
Qed.

Lemma replace_skip (re : regex) (s : jsstring) :
  forall k, replace_g re k s = replace_g re 0 (skipn k s).
Proof.
  induction s as [|c r IH]; intros [|k]; try reflexivity.
  simpl replace_g at 1. rewrite IH. reflexivity.
Qed.

Lemma filter_drop_space (s : jsstring) :
  filter is_nonspace (drop_space s) = filter is_nonspace s.
Proof.
  induction s as [|c r IH]; simpl; [reflexivity|].
  unfold is_nonspace at 2. destruct (is_space c) eqn:E; simpl; [exact IH|].
  unfold is_nonspace at 1. rewrite E. reflexivity.
Qed.

Lemma filter_rev {A} (p : A -> bool) (l : list A) :
  filter p (rev l) = rev (filter p l).
Proof.
  induction l as [|a l IH]; simpl; [reflexivity|].
  rewrite filter_app, IH. simpl. destruct (p a); simpl.
  - reflexivity.
  - rewrite app_nil_r. reflexivity.
Qed.

Lemma filter_trim (s : jsstring) :
  filter is_nonspace (trim s) = filter is_nonspace s.
Proof.
  unfold trim.
  rewrite filter_rev, filter_drop_space, filter_rev, rev_involutive.
  apply filter_drop_space.
Qed.

Lemma trim_empty (s : jsstring) :
  truthy (trim s) = false -> filter is_nonspace s = [].
Proof.
  intros H. rewrite <- filter_trim.
  destruct (trim s); [reflexivity | discriminate].
Qed.

(** *** Surrogates *)

Lemma high_is_surrogate (c : code_unit) :
  is_high_surrogate c = true -> is_surrogate c = true.
Proof.
  unfold is_high_surrogate, is_surrogate. intros H.
  apply Z.eqb_eq in H. apply Z.eqb_eq.
  replace (Z.land c 0xF800) with (Z.land (Z.land c 0xFC00) 0xF800).
  - rewrite H. reflexivity.
  - rewrite <- Z.land_assoc. reflexivity.
Qed.

Lemma low_is_surrogate (c : code_unit) :
  is_low_surrogate c = true -> is_surrogate c = true.
Proof.
  unfold is_low_surrogate, is_surrogate. intros H.
  apply Z.eqb_eq in H. apply Z.eqb_eq.
  replace (Z.land c 0xF800) with (Z.land (Z.land c 0xFC00) 0xF800).
  - rewrite H. reflexivity.
  - rewrite <- Z.land_assoc. reflexivity.
Qed.

Lemma surrogate_not_eq (c k : code_unit) :
  is_surrogate k = false -> is_surrogate c = true -> (c =? k)%Z = false.
Proof.
  intros Hk Hc. destruct (Z.eqb_spec c k) as [->|]; [congruence | reflexivity].
Qed.

Lemma space_not_surrogate (c : code_unit) :
  is_space c = true -> is_surrogate c = false.
Proof.
  unfold is_space. intros H.
  repeat (apply orb_true_iff in H; destruct H as [H|H]);
    try (apply Z.eqb_eq in H; subst c; reflexivity).
  apply andb_true_iff in H. destruct H as [H1 H2].
  apply Z.leb_le in H1. apply Z.leb_le in H2.
  assert (E : (c = 0x2000 \/ c = 0x2001 \/ c = 0x2002 \/ c = 0x2003
               \/ c = 0x2004 \/ c = 0x2005 \/ c = 0x2006 \/ c = 0x2007
               \/ c = 0x2008 \/ c = 0x2009 \/ c = 0x200A)%Z) by lia.
  repeat (destruct E as [E|E]; [subst c; reflexivity|]).
  subst c; reflexivity.
Qed.

Lemma line_terminator_is_space (c : code_unit) :
  is_line_terminator c = true -> is_space c = true.
Proof.
  unfold is_line_terminator, is_space. intros H.
  apply orb_true_iff in H. destruct H as [H|H];
    apply Z.eqb_eq in H; subst c; reflexivity.
Qed.

(** Induction along the code points of a well-formed string. *)
Lemma well_formed_induction (P : jsstring -> Prop) :
  P [] ->
  (forall c r, is_surrogate c = false -> well_formed r = true ->
               P r -> P (c :: r)) ->
  (forall h l r, is_high_surrogate h = true -> is_low_surrogate l = true ->
                 well_formed r = true -> P r -> P (h :: l :: r)) ->
  forall s, well_formed s = true -> P s.
Proof.
  intros Hnil Hone Hpair s.
  assert (G : forall n s, length s <= n -> well_formed s = true -> P s).
  { clear s. induction n as [|n IH]; intros s Hlen Hwf.
    - destruct s; [exact Hnil | simpl in Hlen; lia].
    - destruct s as [|c r]; [exact Hnil|].
      simpl in Hwf, Hlen. destruct (is_surrogate c) eqn:Ec.
      + apply andb_true_iff in Hwf. destruct Hwf as [Hh Hr].
        destruct r as [|l r']; [discriminate|].
        apply andb_true_iff in Hr. destruct Hr as [Hl Hr'].
        simpl in Hlen. apply Hpair; auto. apply IH; [lia | exact Hr'].
      + apply Hone; auto. apply IH; [lia | exact Hwf]. }
  apply (G (length s)). lia.
Qed.

Lemma well_formed_cons (c : code_unit) (r : jsstring) :
  is_surrogate c = false -> well_formed (c :: r) = well_formed r.
Proof. intros H. simpl. rewrite H. reflexivity. Qed.

Lemma well_formed_pair (h l : code_unit) (r : jsstring) :
  is_high_surrogate h = true -> is_low_surrogate l = true ->
  well_formed (h :: l :: r) = well_formed r.
Proof.
  intros Hh Hl. simpl. rewrite (high_is_surrogate _ Hh), Hh, Hl. reflexivity.
Qed.

Lemma decode_cons (c : code_unit) (r : jsstring) :
  is_surrogate c = false -> _decode (c :: r) = c :: _decode r.
Proof.
  intros H. unfold is_surrogate in H. simpl. rewrite H.
  destruct r; reflexivity.
Qed.

Lemma decode_pair (h l : code_unit) (r : jsstring) :
  is_high_surrogate h = true -> is_low_surrogate l = true ->
  _decode (h :: l :: r)
  = (Z.shiftl (Z.land h 0x3FF) 10 + Z.land l 0x3FF + 0x10000)%Z :: _decode r.
Proof.
  intros Hh Hl. apply high_is_surrogate in Hh.
  unfold is_surrogate in Hh. unfold is_low_surrogate in Hl.
  simpl. rewrite Hh, Hl. reflexivity.
Qed.

(** Removing code units that are not surrogates from a well-formed string
    removes that many code points. *)
Lemma decode_filter (p : code_unit -> bool) (s : jsstring) :
  (forall c, is_surrogate c = true -> p c = true) ->
  well_formed s = true ->
  length (_decode (filter p s)) + length (filter (fun c => negb (p c)) s)
  = length (_decode s).
Proof.
  intros Hp. revert s. apply well_formed_induction.
  - reflexivity.
  - intros c r Hc _ IH. rewrite (decode_cons c r Hc). cbn [filter].
    destruct (p c); cbn [negb].
    + rewrite (decode_cons _ _ Hc). cbn [length]. lia.
    + cbn [length]. lia.
  - intros h l r Hh Hl _ IH. rewrite (decode_pair h l r Hh Hl). cbn [filter].
    rewrite (Hp h (high_is_surrogate _ Hh)), (Hp l (low_is_surrogate _ Hl)).
    cbn [negb]. rewrite (decode_pair _ _ _ Hh Hl). cbn [length]. lia.
Qed.

(** *** Stripping tags keeps a string well formed *)

Lemma find_gt_well_formed (s : jsstring) :
  well_formed s = true ->
  forall k, find_gt s = Some k -> well_formed (skipn k s) = true.
Proof.
  revert s.
  apply (well_formed_induction
           (fun s => forall k, find_gt s = Some k ->
                               well_formed (skipn k s) = true)).
  - intros k H. discriminate.
  - intros c r Hc Hr IH k H. simpl in H.
    destruct (c =? 0x3E)%Z.
    + injection H as <-. exact Hr.
    + destruct (find_gt r) as [k'|]; [|discriminate].
      injection H as <-. simpl. apply IH. reflexivity.
  - intros h l r Hh Hl Hr IH k H. simpl in H.
    rewrite (surrogate_not_eq h 0x3E%Z eq_refl (high_is_surrogate _ Hh)) in H.
    rewrite (surrogate_not_eq l 0x3E%Z eq_refl (low_is_surrogate _ Hl)) in H.
    destruct (find_gt r) as [k'|]; [|discriminate].
    injection H as <-. simpl. apply IH. reflexivity.
Qed.

Lemma well_formed_tail (c : code_unit) (r : jsstring) :
  is_surrogate c = false -> well_formed (c :: r) = true -> well_formed r = true.
Proof. intros H. rewrite (well_formed_cons c r H). trivial. Qed.

Lemma letter_not_surrogate (c : code_unit) :
  is_letter c = true -> is_surrogate c = false.
Proof.
  unfold is_letter. intros H.
  destruct (is_surrogate c) eqn:E; [|reflexivity].
  unfold is_surrogate in E. apply Z.eqb_eq in E.
  assert (B : (0 <= c < 128)%Z).
  { apply orb_true_iff in H. destruct H as [H|H];
      apply andb_true_iff in H; destruct H as [H1 H2];
      apply Z.leb_le in H1; apply Z.leb_le in H2; lia. }
  assert (L : Z.land c (Z.ones 7) = c).
  { rewrite Z.land_ones by lia. apply Z.mod_small. simpl. lia. }
  rewrite <- L, <- Z.land_assoc in E. simpl Z.land at 2 in E.
  rewrite Z.land_0_r in E. discriminate.
Qed.

Lemma re_tag_well_formed (s : jsstring) (k : nat) :
  well_formed s = true -> re_tag s = Some k ->
  well_formed (skipn k s) = true.
Proof.
  intros Hwf H. destruct s as [|c0 r]; [discriminate|].
  unfold re_tag in H.
  destruct (Z.eqb_spec c0 0x3C%Z) as [->|]; [|discriminate].
  apply well_formed_tail in Hwf; [|reflexivity].
  destruct r as [|c1 r']; [discriminate|].
  destruct (Z.eqb_spec c1 0x2F%Z) as [->|_].
  - apply well_formed_tail in Hwf; [|reflexivity].
    destruct r' as [|l r2]; [discriminate|].
    destruct (is_letter l) eqn:El; [|discriminate].
    apply well_formed_tail in Hwf; [|apply letter_not_surrogate; exact El].
    destruct (find_gt r2) as [j|] eqn:Ej; [|discriminate].
    injection H as <-. simpl. apply find_gt_well_formed; assumption.
  - destruct (is_letter c1) eqn:El; [|discriminate].
    apply well_formed_tail in Hwf; [|apply letter_not_surrogate; exact El].
    destruct (find_gt r') as [j|] eqn:Ej; [|discriminate].
    injection H as <-. simpl. apply find_gt_well_formed; assumption.
Qed.

Lemma re_tag_surrogate (c : code_unit) (r : jsstring) :
  is_surrogate c = true -> re_tag (c :: r) = None.
Proof.
  intros H. unfold re_tag.
  rewrite (surrogate_not_eq c 0x3C%Z eq_refl H). reflexivity.
Qed.

Lemma length_skipn_le {A} (k : nat) (l : list A) : length (skipn k l) <= length l.
Proof. rewrite length_skipn. lia. Qed.

Lemma strip_tags_well_formed (s : jsstring) :
  well_formed s = true -> well_formed (replace_g re_tag 0 s) = true.
Proof.
  assert (G : forall n s, length s <= n -> well_formed s = true ->
                          well_formed (replace_g re_tag 0 s) = true).
  { clear s. induction n as [|n IH]; intros s Hlen Hwf.
    - destruct s; [reflexivity | simpl in Hlen; lia].
    - destruct s as [|c r]; [reflexivity|].
      simpl in Hlen.
      assert (K : well_formed (c :: replace_g re_tag 0 r) = true).
      { destruct (is_surrogate c) eqn:Ec.
        - simpl in Hwf. rewrite Ec in Hwf.
          apply andb_true_iff in Hwf. destruct Hwf as [Hh Hr].
          destruct r as [|l r']; [discriminate|].
          apply andb_true_iff in Hr. destruct Hr as [Hl Hr'].
          cbn [replace_g].
          rewrite (re_tag_surrogate l r' (low_is_surrogate _ Hl)).
          rewrite (well_formed_pair _ _ _ Hh Hl).
          apply IH; [simpl in Hlen; lia | exact Hr'].
        - rewrite (well_formed_cons _ _ Ec). apply IH; [lia|].
          apply (well_formed_tail c r Ec Hwf). }
      cbn [replace_g].
      destruct (re_tag (c :: r)) as [[|m]|] eqn:Et; [exact K | | exact K].
      rewrite replace_skip. apply IH.
      + pose proof (length_skipn_le m r). lia.
      + apply (re_tag_well_formed _ _ Hwf Et). }
  apply (G (length s)). lia.
Qed.

End TextFacts.

(** ** The counter: paragraphs, characters, code points *)

Module CounterFacts.
Import Text Counter Vocabulary TextFacts.

Local Open Scope nat_scope.

Lemma characters_count_text (t : jsstring) (ops : options) :
  characters (count_text t ops)
  = length (_decode (filter is_nonspace (strip t ops))).
Proof.
  unfold count_text. cbn [characters].
  destruct (truthy (trim (strip t ops))) eqn:E.
  - rewrite replace_one_filter.
    change (fun c => negb (is_space c)) with is_nonspace.
    rewrite filter_trim. reflexivity.
  - rewrite (trim_empty _ E). reflexivity.
Qed.

Lemma all_count_text (t : jsstring) (ops : options) :
  all (count_text t ops)
  = length (_decode (filter (fun c => negb (is_line_terminator c))
                       (strip t ops))).
Proof.
  unfold count_text. cbn [all]. rewrite replace_one_filter. reflexivity.
Qed.

Lemma strip_well_formed (t : jsstring) (ops : options) :
  well_formed t = true -> well_formed (strip t ops) = true.
Proof.
  intros H. unfold strip. destruct (stripTags ops); [|exact H].
  apply strip_tags_well_formed. exact H.
Qed.

(** Line breaks are among the white space, and they are all of it exactly
    when no other white space occurs. *)
Lemma line_breaks_among_space (s : jsstring) :
  length (filter (fun c => negb (negb (is_line_terminator c))) s)
  <= length (filter (fun c => negb (is_nonspace c)) s)
  /\ (length (filter (fun c => negb (negb (is_line_terminator c))) s)
      = length (filter (fun c => negb (is_nonspace c)) s)
      <-> only_line_breaks s = true).
Proof.
  induction s as [|c r [IHle IHeq]];
    [simpl; split; [lia | split; reflexivity]|].
  unfold only_line_breaks in *. cbn [filter forallb].
  assert (En : is_nonspace c = negb (is_space c)) by reflexivity.
  rewrite !En.
  destruct (is_line_terminator c) eqn:El.
  - rewrite (line_terminator_is_space c El). cbn [negb orb andb length].
    split; [lia|]. rewrite <- IHeq. split; lia.
  - destruct (is_space c); cbn [negb orb andb length].
    + split; [lia|]. split; [lia | discriminate].
    + split; [lia|]. exact IHeq.
Qed.

(** C6: counting the empty string gives zero for all four metrics, under
    every configuration. *)
Theorem C6_empty_text_counts_zero (cfg : options_arg) :
  count [] cfg
  = {| paragraphs := 0; words := 0; characters := 0; all := 0 |}.
Proof. destruct cfg as [[[|]|] [[|]|]]; reflexivity. Qed.

(** C2, as the code has it: with [hardReturns] false the text a-LF-LF-b has
    2 paragraphs; with [hardReturns] true it still has 2, the run of two
    line feeds being one boundary; a-LF-b has 1 paragraph with
    [hardReturns] true. *)
Theorem C2_paragraphs_hard_returns :
  paragraphs (count a_nn_b (hard_returns false)) = 2
  /\ paragraphs (count a_nn_b (hard_returns true)) = 2
  /\ paragraphs (count a_n_b (hard_returns true)) = 1.
Proof. repeat split; reflexivity. Qed.

(** C2 as stated fails: the three equalities of the specification do not
    hold together, the second one gives 2 and not 1. *)
Lemma C2_stated_equalities_fail :
  ~ (paragraphs (count a_nn_b (hard_returns false)) = 2
     /\ paragraphs (count a_nn_b (hard_returns true)) = 1
     /\ paragraphs (count a_n_b (hard_returns true)) = 1).
Proof. intros [_ [H _]]. vm_compute in H. discriminate. Qed.

(** C3, amended: for a well-formed UTF-16 text, [all] (the spec's
    charactersAndSpaces) is at least [characters], and the two are equal
    exactly when the counted text (the text after any tag stripping) has
    no white space other than line feeds and carriage returns. *)
Theorem C3_all_at_least_characters (t : jsstring) (cfg : options_arg) :
  well_formed t = true ->
  characters (count t cfg) <= all (count t cfg)
  /\ (all (count t cfg) = characters (count t cfg)
      <-> only_line_breaks (strip t (_extendDefaults cfg)) = true).
Proof.
  intros Hwf. unfold count.
  rewrite characters_count_text, all_count_text.
  set (s := strip t (_extendDefaults cfg)).
  assert (Hs : well_formed s = true) by (apply strip_well_formed; exact Hwf).
  pose proof (decode_filter is_nonspace s) as D1.
  pose proof (decode_filter (fun c => negb (is_line_terminator c)) s) as D2.
  pose proof (line_breaks_among_space s) as [Hle Heq].
  assert (P1 : forall c, is_surrogate c = true -> is_nonspace c = true).
  { intros c Hc. unfold is_nonspace. destruct (is_space c) eqn:E; [|reflexivity].
    apply space_not_surrogate in E. congruence. }
  assert (P2 : forall c, is_surrogate c = true ->
                         negb (is_line_terminator c) = true).
  { intros c Hc. destruct (is_line_terminator c) eqn:E; [|reflexivity].
    apply line_terminator_is_space, space_not_surrogate in E. congruence. }
  specialize (D1 P1 Hs). specialize (D2 P2 Hs).
  split; [lia|]. rewrite <- Heq. split; lia.
Qed.

Lemma C3_all_at_least_characters_witness :
  well_formed two_emoji = true
  /\ characters (count two_emoji no_options) <= all (count two_emoji no_options)
  /\ (all (count two_emoji no_options) = characters (count two_emoji no_options)
      <-> only_line_breaks (strip two_emoji (_extendDefaults no_options)) = true).
Proof.
  split; [reflexivity|].
  apply (C3_all_at_least_characters two_emoji no_options). reflexivity.
Defined.

(** C3 as stated fails twice.  The text a-LF-b contains white space and
    still has [all] equal to [characters], both 2, because line feeds are
    left out of [all] too.  And a text with an unpaired surrogate can have
    more [characters] than [all]. *)
Lemma C3_stated_relation_fails :
  ~ (characters (count a_n_b no_options) <= all (count a_n_b no_options)
     /\ (all (count a_n_b no_options) = characters (count a_n_b no_options)
         <-> no_space a_n_b = true))
  /\ ~ (characters (count lone_high_space_two_emoji no_options)
        <= all (count lone_high_space_two_emoji no_options)).
Proof.
  split.
  - intros [_ [H _]]. specialize (H eq_refl). discriminate.
  - vm_compute. lia.
Qed.

(** C5: two emoji, each a surrogate pair, count as 2 [characters] under
    every configuration; but two unpaired low surrogates count as 1, not
    as one unit each, because [_decode] accepts a low surrogate where it
    looks for a high one. *)
Theorem C5_decode_counts_code_points (cfg : options_arg) :
  characters (count two_emoji cfg) = 2
  /\ all (count two_emoji cfg) = 2
  /\ _decode two_low_halves = [0x10000%Z]
  /\ characters (count two_low_halves cfg) = 1.
Proof. destruct cfg as [[[|]|] [[|]|]]; repeat split; reflexivity. Qed.

End CounterFacts.

(** ** The registry *)

Module RegistryFacts.
Import Text Counter Registry Vocabulary.

Local Open Scope nat_scope.

(** *** What each step leaves alone *)

Lemma validate_fields (selector callback : jsval) (elements : list elem)
  (w : world) :
  let w' := snd (_validateArguments selector elements callback w) in
  querySelectorAll w' = querySelectorAll w /\ dom w' = dom w
  /\ console_warn w' = console_warn w
  /\ _liveElements w' = _liveElements w /\ listeners w' = listeners w
  /\ next_function w' = next_function w /\ calls w' = calls w.
Proof.
  unfold _validateArguments. cbn [snd].
  destruct (console_warn w) eqn:E; [|rewrite E; repeat split].
  destruct (negb (is_string selector));
    [| destruct (negb (negb (length elements =? 0)))];
    destruct (negb (to_boolean callback && is_function callback));
    cbn; rewrite ?E; repeat split.
Qed.

Lemma validate_true (selector callback : jsval) (elements : list elem)
  (w : world) :
  fst (_validateArguments selector elements callback w) = true ->
  (exists s, selector = VString s) /\ elements <> []
  /\ (exists f, callback = VFunction f).
Proof.
  unfold _validateArguments. cbn [fst]. intros H.
  apply andb_true_iff in H. destruct H as [H Hc].
  apply andb_true_iff in H. destruct H as [Hs He].
  apply andb_true_iff in Hc. destruct Hc as [_ Hc].
  repeat split.
  - destruct selector; try discriminate. eexists; reflexivity.
  - intros ->. discriminate.
  - destruct callback; try discriminate. eexists; reflexivity.
Qed.

Lemma validate_string_function (s : jsstring) (f : nat) (elements : list elem)
  (w : world) :
  elements <> [] ->
  fst (_validateArguments (VString s) elements (VFunction f) w) = true.
Proof.
  intros H. unfold _validateArguments. cbn.
  destruct elements; [contradiction | reflexivity].
Qed.

(** *** Reading the registry *)

Lemma loop_find (x : elem) (l : list binding) :
  _loop l
    (fun live (found : option binding) =>
       if (element live =? x)%nat then Some live else found) None
  = find (is_for x) l.
Proof.
  unfold _loop. induction l as [|a r IH]; [reflexivity|].
  cbn [fold_right find]. rewrite IH. reflexivity.
Qed.

Lemma loop_existsb (x : elem) (l : list binding) :
  _loop l
    (fun live (isEnabled : bool) =>
       if (element live =? x)%nat then true else isEnabled) false
  = existsb (is_for x) l.
Proof.
  unfold _loop. induction l as [|a r IH]; [reflexivity|].
  cbn [fold_right existsb]. rewrite IH. unfold is_for.
  destruct (element a =? x); reflexivity.
Qed.

Lemma existsb_filter_nil {A} (p : A -> bool) (l : list A) :
  existsb p l = false <-> filter p l = [].
Proof.
  induction l as [|a r IH]; cbn; [tauto|].
  destruct (p a); cbn; [split; discriminate | exact IH].
Qed.

Lemma enabled_node (e : elem) (w : world) :
  enabled (VNode e) w
  = (nodeType (dom w e) =? 1)%Z && existsb (is_for e) (_liveElements w).
Proof.
  unfold enabled. rewrite loop_existsb.
  destruct (nodeType (dom w e) =? 1)%Z; reflexivity.
Qed.

Lemma enabled_false_of_unbound (e : elem) (w : world) :
  bindings_of e w = [] -> enabled (VNode e) w = false.
Proof.
  intros H. rewrite enabled_node.
  apply existsb_filter_nil in H. rewrite H. apply andb_false_r.
Qed.

Lemma enabled_true_of_bound (e : elem) (w : world) :
  nodeType (dom w e) = 1%Z -> bindings_of e w <> [] ->
  enabled (VNode e) w = true.
Proof.
  intros Hn H. rewrite enabled_node, Hn. cbn.
  destruct (existsb (is_for e) (_liveElements w)) eqn:E; [reflexivity|].
  apply existsb_filter_nil in E. contradiction.
Qed.

(** *** One call of [bind] *)

(** [bind] ends in one of four ways: the element listens the W3C way and
    the handler is new or already registered, or it listens the old way,
    or it cannot listen. *)
Ltac bind_cases w x :=
  unfold bind, addEventListener, attachEvent; cbn;
  destruct (api (dom w x)); [destruct (existsb _ _)| |].

Section Bind.
Variables (f : nat) (ops : options) (x : elem) (w : world).

Lemma bind_frame :
  querySelectorAll (bind f ops x w) = querySelectorAll w
  /\ dom (bind f ops x w) = dom w
  /\ console_warn (bind f ops x w) = console_warn w
  /\ warnings (bind f ops x w) = warnings w.
Proof.
  bind_cases w x; cbn; repeat split.
Qed.

Lemma bind_liveElements :
  _liveElements (bind f ops x w)
  = _liveElements w ++ [binding_of_bind f ops x w].
Proof.
  bind_cases w x; reflexivity.
Qed.

Lemma bind_next_function :
  next_function (bind f ops x w) = S (next_function w).
Proof.
  bind_cases w x; reflexivity.
Qed.

Lemma bind_calls :
  calls (bind f ops x w) = calls w ++ [call_of_bind f ops x w].
Proof.
  bind_cases w x; reflexivity.
Qed.

Lemma bind_listeners_other (e : elem) :
  e <> x -> listeners (bind f ops x w) e = listeners w e.
Proof.
  intros H. apply Nat.eqb_neq in H.
  unfold bind, addEventListener, attachEvent, update. cbn.
  destruct (api (dom w x)); [destruct (existsb _ _)| |]; cbn;
    rewrite ?H; reflexivity.
Qed.

Lemma bind_listeners_no_api :
  api (dom w x) = NoListenApi -> listeners (bind f ops x w) = listeners w.
Proof. intros H. unfold bind. cbn. rewrite H. reflexivity. Qed.

Lemma listener_is_old (e : elem) (h : handler_fn) :
  consistent w -> In h (listeners w e) -> h_id h < next_function w.
Proof.
  intros C H. rewrite (attached w C) in H. unfold expected_listeners in H.
  assert (G : In h (map handler (bindings_of e w)) ->
              h_id h < next_function w).
  { intros G. apply in_map_iff in G. destruct G as [b [<- Hb]].
    apply filter_In in Hb. destruct Hb as [Hb _].
    pose proof (fresh w C) as F. rewrite Forall_forall in F.
    apply F. exact Hb. }
  destruct (api (dom w e)); [apply G, H | apply G, H | destruct H].
Qed.

Lemma new_handler_not_listening :
  consistent w ->
  existsb (same_function (handler_of_bind f ops x w)) (listeners w x) = false.
Proof.
  intros C. destruct (existsb _ _) eqn:E; [|reflexivity].
  apply existsb_exists in E. destruct E as [h [Hin Hs]].
  apply (listener_is_old x h C) in Hin.
  unfold same_function in Hs. cbn in Hs. apply Nat.eqb_eq in Hs. lia.
Qed.

Lemma bind_listeners_self :
  consistent w -> api (dom w x) <> NoListenApi ->
  listeners (bind f ops x w) x
  = listeners w x ++ [handler_of_bind f ops x w].
Proof.
  intros C Ha. pose proof (new_handler_not_listening C) as N.
  unfold handler_of_bind in N.
  unfold bind, addEventListener, attachEvent, update, handler_of_bind. cbn.
  destruct (api (dom w x)); [rewrite N| |contradiction]; cbn;
    rewrite Nat.eqb_refl; reflexivity.
Qed.

Lemma bindings_of_bind (e : elem) :
  bindings_of e (bind f ops x w)
  = bindings_of e w ++ (if (x =? e) then [binding_of_bind f ops x w] else []).
Proof.
  unfold bindings_of. rewrite bind_liveElements, filter_app. cbn.
  unfold is_for at 2. cbn. destruct (x =? e); reflexivity.
Qed.

Lemma bind_consistent : consistent w -> consistent (bind f ops x w).
Proof.
  intros C. split.
  - rewrite bind_liveElements, bind_next_function.
    apply Forall_app. split.
    + eapply Forall_impl; [|exact (fresh w C)]. cbn. intros b Hb. lia.
    + constructor; [cbn; lia | constructor].
  - rewrite bind_liveElements. unfold ids. rewrite map_app. cbn.
    apply NoDup_app.
    + exact (distinct w C).
    + constructor; [intros [] | constructor].
    + intros n Hn [<-|[]]. apply in_map_iff in Hn.
      destruct Hn as [b [Hb Hin]].
      pose proof (fresh w C) as F. rewrite Forall_forall in F.
      apply F in Hin. lia.
  - intros e. unfold expected_listeners.
    destruct bind_frame as [_ [-> _]]. rewrite bindings_of_bind.
    destruct (Nat.eq_dec e x) as [->|Hne].
    + rewrite Nat.eqb_refl. destruct (api (dom w x)) eqn:Ea.
      * rewrite bind_listeners_self by (auto; congruence).
        rewrite map_app, (attached w C). unfold expected_listeners.
        rewrite Ea. reflexivity.
      * rewrite bind_listeners_self by (auto; congruence).
        rewrite map_app, (attached w C). unfold expected_listeners.
        rewrite Ea. reflexivity.
      * rewrite bind_listeners_no_api by exact Ea.
        rewrite (attached w C). unfold expected_listeners.
        rewrite Ea. reflexivity.
    + rewrite bind_listeners_other by exact Hne.
      assert (E : (x =? e) = false) by (apply Nat.eqb_neq; congruence).
      rewrite E, app_nil_r. apply (attached w C).
Qed.

End Bind.

(** *** The loop of [live] *)

Section LiveLoop.
Variables (f : nat) (ops : options).

Lemma live_loop_frame (elements : list elem) (w : world) :
  querySelectorAll (_loop elements (bind f ops) w) = querySelectorAll w
  /\ dom (_loop elements (bind f ops) w) = dom w
  /\ console_warn (_loop elements (bind f ops) w) = console_warn w
  /\ warnings (_loop elements (bind f ops) w) = warnings w.
Proof.
  unfold _loop. induction elements as [|x r IH]; [repeat split|].
  cbn [fold_right].
  destruct (bind_frame f ops x (fold_right (bind f ops) w r))
    as [-> [-> [-> ->]]].
  exact IH.
Qed.

Lemma live_loop_consistent (elements : list elem) (w : world) :
  consistent w -> consistent (_loop elements (bind f ops) w).
Proof.
  intros C. unfold _loop. induction elements as [|x r IH]; [exact C|].
  cbn [fold_right]. apply bind_consistent. exact IH.
Qed.

Lemma live_loop_bindings (e : elem) (elements : list elem) (w : world) :
  length (bindings_of e (_loop elements (bind f ops) w))
  = length (bindings_of e w) + count_occ Nat.eq_dec elements e.
Proof.
  unfold _loop. induction elements as [|x r IH]; [cbn; lia|].
  cbn [fold_right count_occ]. rewrite bindings_of_bind, length_app, IH.
  destruct (Nat.eq_dec x e) as [->|Hne].
  - rewrite Nat.eqb_refl. cbn. lia.
  - apply Nat.eqb_neq in Hne. rewrite Hne. cbn. lia.
Qed.

Lemma live_loop_calls_extend (elements : list elem) (w : world) :
  exists new, calls (_loop elements (bind f ops) w) = calls w ++ new
              /\ length new = length elements.
Proof.
  unfold _loop. induction elements as [|x r [new [IH Hl]]].
  - exists []. rewrite app_nil_r. split; reflexivity.
  - cbn [fold_right]. rewrite bind_calls, IH.
    eexists. rewrite <- app_assoc. split; [reflexivity|].
    rewrite length_app. cbn. lia.
Qed.

End LiveLoop.

Lemma count_occ_one (e : elem) (l : list elem) :
  NoDup l -> In e l -> count_occ Nat.eq_dec l e = 1.
Proof.
  intros Hn Hin. pose proof (proj1 (NoDup_count_occ Nat.eq_dec l) Hn e) as H.
  apply (count_occ_In Nat.eq_dec) in Hin. lia.
Qed.

(** *** One call of [unbind] *)

Lemma splice1_cons {A} (i : Z) (a : A) (r : list A) :
  (0 <= i)%Z -> splice1 (i + 1) (a :: r) = a :: splice1 i r.
Proof.
  intros H. unfold splice1. cbn [length].
  assert (E1 : (i + 1 <? 0)%Z = false) by (apply Z.ltb_ge; lia).
  assert (E2 : (i <? 0)%Z = false) by (apply Z.ltb_ge; lia).
  rewrite E1, E2.
  replace (Z.to_nat (Z.min (i + 1) (Z.of_nat (S (length r)))))
    with (S (Z.to_nat (Z.min i (Z.of_nat (length r))))) by lia.
  reflexivity.
Qed.

Lemma find_splice (x : elem) (l : list binding) (b : binding) :
  NoDup (ids l) -> find (is_for x) l = Some b ->
  (0 <= indexOf l b)%Z /\ splice1 (indexOf l b) l = remove_first x l.
Proof.
  induction l as [|a r IH]; intros Hnd H; [discriminate|].
  cbn [find] in H. cbn [indexOf remove_first].
  destruct (is_for x a) eqn:Ea.
  - injection H as <-. unfold same_binding, same_function.
    rewrite Nat.eqb_refl. split; [lia | reflexivity].
  - cbn [ids map] in Hnd. apply NoDup_cons_iff in Hnd.
    destruct Hnd as [Hnotin Hnd].
    assert (Hb : In b r) by (apply find_some in H; tauto).
    assert (Hs : same_binding a b = false).
    { unfold same_binding, same_function. apply Nat.eqb_neq. intros E.
      apply Hnotin. rewrite E. unfold ids.
      apply (in_map (fun b => h_id (handler b))). exact Hb. }
    rewrite Hs. destruct (IH Hnd H) as [Hi Hsp].
    assert (E : (indexOf r b <? 0)%Z = false) by (apply Z.ltb_ge; lia).
    rewrite E, splice1_cons, Hsp by lia. split; [lia | reflexivity].
Qed.

Lemma remove_first_absent (x : elem) (l : list binding) :
  find (is_for x) l = None -> remove_first x l = l.
Proof.
  induction l as [|a r IH]; intros H; [reflexivity|].
  cbn in H |- *. destruct (is_for x a); [discriminate|].
  rewrite IH by exact H. reflexivity.
Qed.

Lemma remove_first_incl (x : elem) (l : list binding) (b : binding) :
  In b (remove_first x l) -> In b l.
Proof.
  induction l as [|a r IH]; cbn; [tauto|].
  destruct (is_for x a); cbn; [tauto|]. intros [H|H]; [tauto|].
  right. apply IH. exact H.
Qed.

Lemma remove_first_nodup (x : elem) (l : list binding) :
  NoDup (ids l) -> NoDup (ids (remove_first x l)).
Proof.
  induction l as [|a r IH]; intros H; [exact H|].
  cbn [ids map] in H. apply NoDup_cons_iff in H. destruct H as [Hn Hr].
  cbn [remove_first]. destruct (is_for x a); [exact Hr|].
  cbn [ids map]. apply NoDup_cons; [|apply IH; exact Hr].
  intros G. apply Hn. unfold ids in G |- *. apply in_map_iff in G.
  destruct G as [b [Hb Hin]]. rewrite <- Hb.
  apply (in_map (fun b => h_id (handler b))).
  apply (remove_first_incl x). exact Hin.
Qed.

Lemma filter_remove_first (e x : elem) (l : list binding) :
  filter (is_for e) (remove_first x l)
  = if e =? x then tl (filter (is_for e) l) else filter (is_for e) l.
Proof.
  destruct (Nat.eqb_spec e x) as [->|Hne].
  - induction l as [|a r IH]; [reflexivity|].
    cbn [remove_first filter].
    destruct (is_for x a) eqn:Ea; [reflexivity|].
    cbn [filter]. rewrite Ea. exact IH.
  - induction l as [|a r IH]; [reflexivity|].
    cbn [remove_first filter]. destruct (is_for x a) eqn:Ea.
    + unfold is_for in Ea |- *. apply Nat.eqb_eq in Ea. rewrite Ea.
      assert (E : (x =? e) = false) by (apply Nat.eqb_neq; congruence).
      rewrite E. reflexivity.
    + cbn [filter]. rewrite IH. reflexivity.
Qed.

Lemma filter_other_functions (h : handler_fn) (l : list binding) :
  ~ In (h_id h) (ids l) ->
  filter (fun g => negb (same_function h g)) (map handler l) = map handler l.
Proof.
  induction l as [|a r IH]; intros H; [reflexivity|].
  cbn [map filter]. cbn [ids map] in H.
  assert (E : same_function h (handler a) = false).
  { unfold same_function. apply Nat.eqb_neq. intros E. apply H. left.
    symmetry. exact E. }
  rewrite E. cbn [negb]. rewrite IH; [reflexivity|].
  intros G. apply H. right. exact G.
Qed.

Lemma ids_filter_incl (p : binding -> bool) (l : list binding) (n : nat) :
  In n (ids (filter p l)) -> In n (ids l).
Proof.
  unfold ids. intros H. apply in_map_iff in H. destruct H as [b [<- Hb]].
  apply filter_In in Hb.
  apply (in_map (fun b => h_id (handler b))). tauto.
Qed.

Lemma detach_found (x : elem) (l : list binding) (b : binding) :
  NoDup (ids l) -> find (is_for x) l = Some b ->
  filter (fun g => negb (same_function (handler b) g))
    (map handler (filter (is_for x) l))
  = map handler (filter (is_for x) (remove_first x l)).
Proof.
  induction l as [|a r IH]; intros Hnd H; [discriminate|].
  cbn [ids map] in Hnd. apply NoDup_cons_iff in Hnd. destruct Hnd as [Hn Hr].
  cbn [find] in H. cbn [filter remove_first].
  destruct (is_for x a) eqn:Ea.
  - injection H as <-. cbn [map filter]. unfold same_function at 1.
    rewrite Nat.eqb_refl. cbn [negb].
    apply filter_other_functions. intros G. apply Hn.
    apply (ids_filter_incl _ _ _ G).
  - cbn [filter]. rewrite Ea. apply IH; assumption.
Qed.

Section Unbind.
Variables (x : elem) (w : world).

Lemma unbind_frame :
  querySelectorAll (unbind x w) = querySelectorAll w
  /\ dom (unbind x w) = dom w
  /\ console_warn (unbind x w) = console_warn w
  /\ warnings (unbind x w) = warnings w
  /\ calls (unbind x w) = calls w
  /\ next_function (unbind x w) = next_function w.
Proof.
  unfold unbind. destruct (_loop _ _ _); [|repeat split].
  unfold detachEvent, removeEventListener.
  destruct (api (dom w x)); cbn; repeat split.
Qed.

Lemma unbind_liveElements :
  consistent w ->
  _liveElements (unbind x w) = remove_first x (_liveElements w).
Proof.
  intros C. unfold unbind. rewrite loop_find.
  destruct (find (is_for x) (_liveElements w)) as [b|] eqn:E.
  - destruct (find_splice x _ b (distinct w C) E) as [_ Hs].
    unfold detachEvent, removeEventListener.
    destruct (api (dom w x)); cbn; exact Hs.
  - symmetry. apply remove_first_absent. exact E.
Qed.

Lemma unbind_listeners_other (e : elem) :
  e <> x -> listeners (unbind x w) e = listeners w e.
Proof.
  intros H. apply Nat.eqb_neq in H. unfold unbind.
  destruct (_loop _ _ _); [|reflexivity].
  unfold detachEvent, removeEventListener, update.
  destruct (api (dom w x)); cbn; rewrite ?H; reflexivity.
Qed.

Lemma bindings_of_unbind (e : elem) :
  consistent w ->
  bindings_of e (unbind x w)
  = if e =? x then tl (bindings_of e w) else bindings_of e w.
Proof.
  intros C. unfold bindings_of. rewrite (unbind_liveElements C).
  apply filter_remove_first.
Qed.

Lemma unbind_consistent : consistent w -> consistent (unbind x w).
Proof.
  intros C. split.
  - rewrite (unbind_liveElements C).
    destruct unbind_frame as [_ [_ [_ [_ [_ ->]]]]].
    pose proof (fresh w C) as F. rewrite Forall_forall in F |- *.
    intros b Hb. apply F. apply (remove_first_incl x). exact Hb.
  - rewrite (unbind_liveElements C).
    apply (remove_first_nodup x _ (distinct w C)).
  - intros e. unfold expected_listeners.
    destruct unbind_frame as [_ [-> _]].
    rewrite (bindings_of_unbind e C).
    destruct (Nat.eqb_spec e x) as [->|Hne].
    + unfold unbind. rewrite loop_find.
      destruct (find (is_for x) (_liveElements w)) as [b|] eqn:E.
      * pose proof (detach_found x _ b (distinct w C) E) as D.
        rewrite filter_remove_first, Nat.eqb_refl in D.
        pose proof (attached w C x) as A. unfold expected_listeners in A.
        unfold detachEvent, removeEventListener, update.
        destruct (api (dom w x)); cbn; rewrite ?Nat.eqb_refl, A;
          try exact D; reflexivity.
      * pose proof (attached w C x) as A. unfold expected_listeners in A.
        assert (N : bindings_of x w = []).
        { unfold bindings_of. apply existsb_filter_nil.
          destruct (existsb (is_for x) (_liveElements w)) eqn:Ex;
            [|reflexivity].
          apply existsb_exists in Ex. destruct Ex as [b [Hb Hf]].
          pose proof (find_none _ _ E b Hb). congruence. }
        rewrite A, N. reflexivity.
    + rewrite (unbind_listeners_other e Hne). apply (attached w C).
Qed.

End Unbind.

(** *** The loop of [die] *)

Lemma die_loop_frame (elements : list elem) (w : world) :
  querySelectorAll (_loop elements unbind w) = querySelectorAll w
  /\ dom (_loop elements unbind w) = dom w
  /\ console_warn (_loop elements unbind w) = console_warn w
  /\ warnings (_loop elements unbind w) = warnings w
  /\ calls (_loop elements unbind w) = calls w
  /\ next_function (_loop elements unbind w) = next_function w.
Proof.
  unfold _loop. induction elements as [|x r IH]; [repeat split|].
  cbn [fold_right].
  destruct (unbind_frame x (fold_right unbind w r))
    as [-> [-> [-> [-> [-> ->]]]]].
  exact IH.
Qed.

Lemma die_loop_consistent (elements : list elem) (w : world) :
  consistent w -> consistent (_loop elements unbind w).
Proof.
  intros C. unfold _loop. induction elements as [|x r IH]; [exact C|].
  cbn [fold_right]. apply unbind_consistent. exact IH.
Qed.

Lemma die_loop_bindings (e : elem) (elements : list elem) (w : world) :
  consistent w ->
  bindings_of e (_loop elements unbind w)
  = Nat.iter (count_occ Nat.eq_dec elements e) (@tl binding) (bindings_of e w).
Proof.
  intros C. induction elements as [|x r IH]; [reflexivity|].
  change (_loop (x :: r) unbind w) with (unbind x (_loop r unbind w)).
  rewrite bindings_of_unbind by (apply die_loop_consistent; exact C).
  cbn [count_occ]. destruct (Nat.eq_dec x e) as [->|Hne].
  - rewrite Nat.eqb_refl, IH. reflexivity.
  - assert (E : (e =? x) = false) by (apply Nat.eqb_neq; congruence).
    rewrite E. exact IH.
Qed.

(** *** Delivering a change event *)

Lemma run_handlers_calls (l : list handler_fn) (w : world) :
  length (calls (fold_left (fun w' h => run_handler h w') l w))
  = length (calls w) + length l.
Proof.
  revert w. induction l as [|h r IH]; intros w; [cbn; lia|].
  cbn [fold_left]. rewrite IH. unfold run_handler, call_callback. cbn.
  rewrite length_app. cbn. lia.
Qed.

Lemma dispatch_calls (e : elem) (w : world) :
  length (calls (dispatch e w)) = length (calls w) + length (listeners w e).
Proof. apply run_handlers_calls. Qed.

Lemma dispatch_nothing (e : elem) (w : world) :
  listeners w e = [] -> dispatch e w = w.
Proof. intros H. unfold dispatch. rewrite H. reflexivity. Qed.

(** *** The loop of [once] *)

Lemma once_loop_frame (f : nat) (ops : options_arg) (elements : list elem)
  (w : world) :
  let w' :=
    _loop elements
      (fun element w' =>
         call_callback f element
           (_count (dom w' element) (_extendDefaults ops)) w') w in
  _liveElements w' = _liveElements w /\ listeners w' = listeners w
  /\ next_function w' = next_function w /\ dom w' = dom w
  /\ querySelectorAll w' = querySelectorAll w /\ warnings w' = warnings w.
Proof.
  unfold _loop. induction elements as [|x r IH]; [repeat split|].
  cbn [fold_right]. cbn. exact IH.
Qed.

Lemma initial_consistent (qsa : jsstring -> list elem) (d : elem -> node)
  (console : bool) : consistent (initial qsa d console).
Proof.
  split; cbn.
  - constructor.
  - constructor.
  - intros e. unfold expected_listeners. cbn. destruct (api (d e)); reflexivity.
Qed.

(** *** The public methods *)

Lemma validate_ok_world (selector callback : jsval) (elements : list elem)
  (w : world) :
  fst (_validateArguments selector elements callback w) = true ->
  snd (_validateArguments selector elements callback w) = w.
Proof.
  unfold _validateArguments. cbn [fst snd]. intros H.
  apply andb_true_iff in H. destruct H as [H Hc].
  apply andb_true_iff in H. destruct H as [Hs He].
  rewrite Hs, He, Hc. cbn. destruct (console_warn w); reflexivity.
Qed.

Lemma live_ok (s : jsstring) (f : nat) (options : options_arg) (w : world) :
  querySelectorAll w s <> [] ->
  live (VString s) (VFunction f) options w
  = (Return VCountable,
     _loop (querySelectorAll w s) (bind f (_extendDefaults options)) w).
Proof.
  intros H. unfold live. cbn [_query].
  pose proof (validate_string_function s f _ w H) as V.
  pose proof (validate_ok_world _ _ _ _ V) as W.
  destruct (_validateArguments _ _ _ w) as [v w1]. cbn in V, W. subst.
  reflexivity.
Qed.

Lemma die_ok (s : jsstring) (w : world) :
  querySelectorAll w s <> [] ->
  die (VString s) w
  = (Return VCountable, _loop (querySelectorAll w s) unbind w).
Proof.
  intros H. unfold die. cbn [_query].
  pose proof (validate_string_function s (next_function w) _ w H) as V.
  pose proof (validate_ok_world _ _ _ _ V) as W.
  destruct (_validateArguments _ _ _ w) as [v w1]. cbn in V, W. subst.
  reflexivity.
Qed.

Lemma in_not_nil {A} (a : A) (l : list A) : In a l -> l <> [].
Proof. intros H ->. destruct H. Qed.

Lemma invoke_invalid (m : invocation) (w : world) :
  validation_of m w = false ->
  exists elements selector callback,
    invoke m w
    = (Return VUndefined,
       snd (_validateArguments selector elements callback w)).
Proof.
  destruct m as [selector callback options|selector|selector callback options];
    unfold validation_of, valid; cbn [invoke]; intros H.
  - exists (_query selector w), selector, callback. unfold live.
    destruct (_validateArguments _ _ _ w) as [v w1]. cbn in H. subst v.
    reflexivity.
  - exists (_query selector w), selector, (VFunction (next_function w)).
    unfold die.
    destruct (_validateArguments _ _ _ w) as [v w1]. cbn in H. subst v.
    reflexivity.
  - exists (_query selector w), selector, callback. unfold once.
    destruct (_validateArguments _ _ _ w) as [v w1]. cbn in H. subst v.
    reflexivity.
Qed.

(** Of the calls the model covers, none ends in [Throw]: a callback is
    called only after validation has found it to be a function. *)
Lemma invoke_returns (m : invocation) (w : world) :
  exists v, fst (invoke m w) = Return v.
Proof.
  destruct m as [selector callback options|selector|selector callback options];
    cbn [invoke].
  - unfold live.
    destruct (_validateArguments _ _ _ w) as [v w1] eqn:E.
    destruct v; cbn [negb]; [|eexists; reflexivity].
    pose proof (validate_true selector callback (_query selector w) w) as T.
    rewrite E in T. destruct (T eq_refl) as [_ [_ [f ->]]].
    eexists; reflexivity.
  - unfold die.
    destruct (_validateArguments _ _ _ w) as [v w1].
    destruct v; eexists; reflexivity.
  - unfold once.
    destruct (_validateArguments _ _ _ w) as [v w1] eqn:E.
    destruct v; cbn [negb]; [|eexists; reflexivity].
    pose proof (validate_true selector callback (_query selector w) w) as T.
    rewrite E in T. destruct (T eq_refl) as [_ [_ [f ->]]].
    eexists; reflexivity.
Qed.

(** *** The calls that run to their end keep the world consistent *)

Lemma consistent_ext (w w' : world) :
  _liveElements w' = _liveElements w -> listeners w' = listeners w ->
  next_function w' = next_function w ->
  (forall e, api (dom w' e) = api (dom w e)) ->
  consistent w -> consistent w'.
Proof.
  intros Hl Hs Hn Ha C. split.
  - rewrite Hl, Hn. exact (fresh w C).
  - rewrite Hl. exact (distinct w C).
  - intros e. rewrite Hs, (attached w C). unfold expected_listeners, bindings_of.
    rewrite Ha, Hl. reflexivity.
Qed.

Lemma validate_consistent (selector callback : jsval) (elements : list elem)
  (w : world) :
  consistent w ->
  consistent (snd (_validateArguments selector elements callback w)).
Proof.
  destruct (validate_fields selector callback elements w)
    as [_ [Hd [_ [Hl [Hs [Hn _]]]]]].
  apply consistent_ext; try assumption. intros e. rewrite Hd. reflexivity.
Qed.

Lemma run_handlers_frame (l : list handler_fn) (w : world) :
  let w' := fold_left (fun w' h => run_handler h w') l w in
  _liveElements w' = _liveElements w /\ listeners w' = listeners w
  /\ next_function w' = next_function w /\ dom w' = dom w.
Proof.
  revert w. induction l as [|h r IH]; intros w; [repeat split|].
  cbn [fold_left]. cbv zeta in IH |- *.
  destruct (IH (run_handler h w)) as [-> [-> [-> ->]]]. repeat split.
Qed.

Lemma invoke_consistent (m : invocation) (w : world) :
  consistent w -> consistent (snd (invoke m w)).
Proof.
  intros C.
  destruct m as [selector callback options|selector|selector callback options];
    cbn [invoke].
  - unfold live.
    pose proof (validate_consistent selector callback (_query selector w) w C)
      as V.
    destruct (_validateArguments _ _ _ w) as [v w1]. cbn [snd] in V.
    destruct v; cbn [negb]; [|exact V].
    destruct callback; try exact V.
    cbn [snd]. apply live_loop_consistent. exact V.
  - unfold die.
    pose proof (validate_consistent selector (VFunction (next_function w))
                  (_query selector w) w C) as V.
    destruct (_validateArguments _ _ _ w) as [v w1]. cbn [snd] in V.
    destruct v; cbn [negb snd]; [|exact V].
    apply die_loop_consistent. exact V.
  - unfold once.
    pose proof (validate_consistent selector callback (_query selector w) w C)
      as V.
    destruct (_validateArguments _ _ _ w) as [v w1]. cbn [snd] in V.
    destruct v; cbn [negb]; [|exact V].
    destruct callback; try exact V.
    cbn [snd].
    pose proof (once_loop_frame f options (_query selector w) w1) as O.
    cbv zeta in O. destruct O as [Ol [Os [On [Od _]]]].
    apply (consistent_ext w1); try assumption.
    intros e. rewrite Od. reflexivity.
Qed.

Lemma reachable_consistent (w : world) : reachable w -> consistent w.
Proof.
  induction 1 as [qsa d console|m w _ IH|e s w _ IH|e w _ IH].
  - apply initial_consistent.
  - apply invoke_consistent. exact IH.
  - apply (consistent_ext w); try reflexivity; [|exact IH].
    intros x. unfold edit. cbn. destruct (x =? e) eqn:E; [|reflexivity].
    apply Nat.eqb_eq in E. subst x. reflexivity.
  - destruct (run_handlers_frame (listeners w e) w) as [Hl [Hs [Hn Hd]]].
    apply (consistent_ext w); try assumption.
    intros x. unfold dispatch. rewrite Hd. reflexivity.
Qed.

(** C4: when validation fails, [live], [die] and [once] do not throw and
    leave the registry, the listeners and the callback log as they were;
    but what they return is [undefined], not the Countable object. *)
Theorem C4_invalid_arguments_return_undefined (m : invocation) (w : world) :
  validation_of m w = false ->
  fst (invoke m w) = Return VUndefined /\ untouched w (snd (invoke m w)).
Proof.
  intros H. destruct (invoke_invalid m w H) as [els [sel [cb ->]]].
  cbn [fst snd]. split; [reflexivity|].
  destruct (validate_fields sel cb els w) as [_ [_ [_ [Hl [Hs [_ Hc]]]]]].
  repeat split; assumption.
Qed.

Lemma C4_invalid_arguments_return_undefined_witness :
  validation_of (Live sel_none (VFunction 7) no_options) sample_page = false
  /\ fst (invoke (Live sel_none (VFunction 7) no_options) sample_page)
     = Return VUndefined
  /\ untouched sample_page
       (snd (invoke (Live sel_none (VFunction 7) no_options) sample_page)).
Proof.
  split; [reflexivity|].
  apply (C4_invalid_arguments_return_undefined
           (Live sel_none (VFunction 7) no_options) sample_page).
  reflexivity.
Defined.

Lemma enabled_ext (v : jsval) (w w' : world) :
  dom w' = dom w -> _liveElements w' = _liveElements w ->
  enabled v w' = enabled v w.
Proof. intros Hd Hl. unfold enabled. rewrite Hd, Hl. reflexivity. Qed.

(** C8: [once] leaves the registry and the listeners as they were, so
    [enabled] answers the same before and after, whatever it is asked. *)
Theorem C8_once_leaves_registry (selector callback : jsval)
  (options : options_arg) (w : world) (v : jsval) :
  _liveElements (snd (once selector callback options w)) = _liveElements w
  /\ listeners (snd (once selector callback options w)) = listeners w
  /\ enabled v (snd (once selector callback options w)) = enabled v w.
Proof.
  assert (G : _liveElements (snd (once selector callback options w))
              = _liveElements w
              /\ listeners (snd (once selector callback options w))
                 = listeners w
              /\ dom (snd (once selector callback options w)) = dom w).
  { unfold once.
    pose proof (validate_fields selector callback (_query selector w) w) as V.
    destruct (_validateArguments _ _ _ w) as [ok w1]. cbn [snd] in V.
    destruct V as [_ [Hd [_ [Hl [Hs _]]]]].
    destruct ok; cbn [negb]; [|cbn [snd]; tauto].
    destruct callback; cbn [snd]; try tauto.
    pose proof (once_loop_frame f options (_query selector w) w1) as O.
    cbv zeta in O. destruct O as [Ol [Os [_ [Od _]]]].
    rewrite Ol, Os, Od. tauto. }
  destruct G as [Hl [Hs Hd]]. repeat split; try assumption.
  apply enabled_ext; assumption.
Qed.

Lemma length_iter_tl {A} (k : nat) (l : list A) :
  length (Nat.iter k (@tl A) l) = length l - k.
Proof.
  induction k as [|k IH]; simpl; [lia|].
  destruct (Nat.iter k (@tl A) l) eqn:E; simpl in IH |- *; lia.
Qed.

Lemma listeners_of_bindings (e : elem) (w : world) :
  consistent w -> api (dom w e) <> NoListenApi ->
  listeners w e = map handler (bindings_of e w).
Proof.
  intros C H. rewrite (attached w C). unfold expected_listeners.
  destruct (api (dom w e)); [reflexivity | reflexivity | contradiction].
Qed.

Lemma listeners_of_unbound (e : elem) (w : world) :
  consistent w -> bindings_of e w = [] -> listeners w e = [].
Proof.
  intros C H. rewrite (attached w C). unfold expected_listeners.
  rewrite H. destruct (api (dom w e)); reflexivity.
Qed.

(** C1, as the code has it: [live] neither replaces nor refuses.  Each
    successful call adds one entry for every element it resolves, so after
    two calls an element has two more entries than before, and a change
    event then runs one handler for each of its entries. *)
Theorem C1_live_adds_a_binding_each_time (s : jsstring) (f : nat)
  (options : options_arg) (w : world) (e : elem) :
  consistent w ->
  NoDup (querySelectorAll w s) ->
  In e (querySelectorAll w s) ->
  api (dom w e) <> NoListenApi ->
  let w1 := snd (live (VString s) (VFunction f) options w) in
  let w2 := snd (live (VString s) (VFunction f) options w1) in
  length (bindings_of e w1) = length (bindings_of e w) + 1
  /\ length (bindings_of e w2) = length (bindings_of e w) + 2
  /\ length (calls (dispatch e w2))
     = length (calls w2) + (length (bindings_of e w) + 2).
Proof.
  cbv zeta.
  intros C Hnd Hin Hapi.
  rewrite (live_ok s f options w (in_not_nil _ _ Hin)). cbn [snd].
  set (ops := _extendDefaults options).
  set (w1 := _loop (querySelectorAll w s) (bind f ops) w).
  destruct (live_loop_frame f ops (querySelectorAll w s) w) as [Hq [Hd _]].
  fold w1 in Hq, Hd.
  assert (C1 : consistent w1) by (apply live_loop_consistent; exact C).
  assert (Hin1 : In e (querySelectorAll w1 s)) by (rewrite Hq; exact Hin).
  rewrite (live_ok s f options w1 (in_not_nil _ _ Hin1)). cbn [snd].
  fold ops. rewrite Hq.
  set (w2 := _loop (querySelectorAll w s) (bind f ops) w1).
  destruct (live_loop_frame f ops (querySelectorAll w s) w1) as [_ [Hd2 _]].
  fold w2 in Hd2.
  assert (C2 : consistent w2) by (apply live_loop_consistent; exact C1).
  assert (B1 : length (bindings_of e w1) = length (bindings_of e w) + 1).
  { unfold w1. rewrite live_loop_bindings, (count_occ_one e _ Hnd Hin).
    reflexivity. }
  assert (B2 : length (bindings_of e w2) = length (bindings_of e w) + 2).
  { unfold w2. rewrite live_loop_bindings, (count_occ_one e _ Hnd Hin). lia. }
  split; [exact B1|]. split; [exact B2|].
  rewrite dispatch_calls, (listeners_of_bindings e w2 C2), length_map, B2.
  - reflexivity.
  - rewrite Hd2, Hd. exact Hapi.
Qed.

Lemma sample_page_consistent : consistent sample_page.
Proof. apply initial_consistent. Qed.

Lemma nodup_2 : NoDup [2].
Proof. constructor; [intros [] | constructor]. Qed.

Lemma C1_live_adds_a_binding_each_time_witness :
  consistent sample_page
  /\ NoDup (querySelectorAll sample_page [0x62%Z])
  /\ In 2 (querySelectorAll sample_page [0x62%Z])
  /\ length (bindings_of 2 bound_once) = length (bindings_of 2 sample_page) + 1
  /\ length (bindings_of 2 bound_twice)
     = length (bindings_of 2 sample_page) + 2
  /\ length (calls (dispatch 2 bound_twice))
     = length (calls bound_twice) + (length (bindings_of 2 sample_page) + 2).
Proof.
  split; [exact sample_page_consistent|].
  split; [exact nodup_2|].
  split; [left; reflexivity|].
  apply (C1_live_adds_a_binding_each_time [0x62%Z] 7 no_options sample_page 2).
  - exact sample_page_consistent.
  - exact nodup_2.
  - left. reflexivity.
  - discriminate.
Defined.

(** C1 as stated fails: after [live] twice on the selector of element 2
    the registry holds two entries for that element, not at most one, and
    one change event calls the callback twice, not once. *)
Lemma C1_two_lives_two_handlers :
  ~ (length (bindings_of 2 bound_twice) <= 1)
  /\ ~ (length (calls (dispatch 2 bound_twice))
        = length (calls bound_twice) + 1).
Proof. split; vm_compute; lia. Qed.

(** C7, amended: on an element that has no entry yet, [live] adds one
    entry and, if the element can listen, one handler, so that [enabled]
    answers true; [die] then removes them: [enabled] answers false, no
    listener is left, and a change event calls no callback. *)
Theorem C7_live_then_die_unbinds (s1 s2 : jsstring) (f : nat)
  (options : options_arg) (w : world) (e : elem) :
  consistent w ->
  NoDup (querySelectorAll w s1) ->
  In e (querySelectorAll w s1) ->
  In e (querySelectorAll w s2) ->
  nodeType (dom w e) = 1%Z ->
  bindings_of e w = [] ->
  let w1 := snd (live (VString s1) (VFunction f) options w) in
  let w2 := snd (die (VString s2) w1) in
  (enabled (VNode e) w1 = true
   /\ length (bindings_of e w1) = 1
   /\ length (listeners w1 e)
      = match api (dom w e) with NoListenApi => 0 | _ => 1 end)
  /\ enabled (VNode e) w2 = false
  /\ listeners w2 e = []
  /\ calls (dispatch e w2) = calls w2.
Proof.
  cbv zeta.
  intros C Hnd Hin1 Hin2 Hn Hun.
  rewrite (live_ok s1 f options w (in_not_nil _ _ Hin1)). cbn [snd].
  set (ops := _extendDefaults options).
  set (w1 := _loop (querySelectorAll w s1) (bind f ops) w).
  destruct (live_loop_frame f ops (querySelectorAll w s1) w) as [Hq [Hd _]].
  fold w1 in Hq, Hd.
  assert (C1 : consistent w1) by (apply live_loop_consistent; exact C).
  assert (Hin : In e (querySelectorAll w1 s2)) by (rewrite Hq; exact Hin2).
  rewrite (die_ok s2 w1 (in_not_nil _ _ Hin)). cbn [snd].
  set (w2 := _loop (querySelectorAll w1 s2) unbind w1).
  assert (C2 : consistent w2) by (apply die_loop_consistent; exact C1).
  assert (B1 : length (bindings_of e w1) = 1).
  { unfold w1. rewrite live_loop_bindings, (count_occ_one e _ Hnd Hin1), Hun.
    reflexivity. }
  assert (B : bindings_of e w2 = []).
  { apply length_zero_iff_nil. unfold w2.
    rewrite (die_loop_bindings e _ w1 C1), length_iter_tl, B1.
    apply (count_occ_In Nat.eq_dec) in Hin. lia. }
  pose proof (listeners_of_unbound e w2 C2 B) as L.
  split; [|split; [apply enabled_false_of_unbound; exact B|
                   split; [exact L|rewrite (dispatch_nothing e w2 L);
                                   reflexivity]]].
  split; [|split; [exact B1|]].
  - apply enabled_true_of_bound; [rewrite Hd; exact Hn|].
    intros E. rewrite E in B1. discriminate.
  - rewrite (attached w1 C1). unfold expected_listeners. rewrite Hd.
    destruct (api (dom w e)); rewrite ?length_map; try exact B1; reflexivity.
Qed.

Lemma nodup_1_2 : NoDup [1; 2].
Proof.
  constructor; [intros [H|[]]; discriminate|]. exact nodup_2.
Qed.

Lemma C7_live_then_die_unbinds_witness :
  bindings_of 2 sample_page = []
  /\ (enabled (VNode 2) (snd (live sel_a (VFunction 7) no_options sample_page))
      = true
      /\ length
           (bindings_of 2
              (snd (live sel_a (VFunction 7) no_options sample_page))) = 1
      /\ length
           (listeners (snd (live sel_a (VFunction 7) no_options sample_page))
              2)
         = match api (dom sample_page 2) with NoListenApi => 0 | _ => 1 end)
  /\ enabled (VNode 2)
       (snd (die sel_b (snd (live sel_a (VFunction 7) no_options sample_page))))
     = false
  /\ listeners
       (snd (die sel_b (snd (live sel_a (VFunction 7) no_options sample_page))))
       2 = []
  /\ calls
       (dispatch 2
          (snd (die sel_b
                  (snd (live sel_a (VFunction 7) no_options sample_page)))))
     = calls
         (snd (die sel_b
                 (snd (live sel_a (VFunction 7) no_options sample_page)))).
Proof.
  split; [reflexivity|].
  apply (C7_live_then_die_unbinds [0x61%Z] [0x62%Z] 7 no_options
           sample_page 2).
  - exact sample_page_consistent.
  - exact nodup_1_2.
  - right. left. reflexivity.
  - left. reflexivity.
  - reflexivity.
  - reflexivity.
Defined.

(** C7 as stated, for every surface, fails on a surface that is bound
    already: element 2 has one entry in [bound_once]; [live] and then
    [die] on its selector leave it with one entry and one handler, so
    [enabled] answers true and a change event calls the callback. *)
Lemma C7_bound_surface_stays_enabled :
  ~ (enabled (VNode 2)
       (snd (die sel_b (snd (live sel_b (VFunction 7) no_options bound_once))))
     = false
     /\ calls
          (dispatch 2
             (snd (die sel_b
                     (snd (live sel_b (VFunction 7) no_options bound_once)))))
        = calls
            (snd (die sel_b
                    (snd (live sel_b (VFunction 7) no_options bound_once))))).
Proof. intros [H _]. vm_compute in H. discriminate. Qed.

Lemma map_tl {A B} (g : A -> B) (l : list A) : map g (tl l) = tl (map g l).
Proof. destruct l; reflexivity. Qed.

(** C9: when an element has more than one entry, one [die] on a selector
    that finds it removes the oldest of its entries and detaches that
    entry's handler only; the later entries and their handlers stay, and
    [enabled] still answers true. *)
Theorem C9_die_removes_earliest_binding (s : jsstring) (w : world) (e : elem) :
  consistent w ->
  NoDup (querySelectorAll w s) ->
  In e (querySelectorAll w s) ->
  nodeType (dom w e) = 1%Z ->
  1 < length (bindings_of e w) ->
  bindings_of e (snd (die (VString s) w)) = tl (bindings_of e w)
  /\ listeners (snd (die (VString s) w)) e = tl (listeners w e)
  /\ enabled (VNode e) (snd (die (VString s) w)) = true.
Proof.
  intros C Hnd Hin Hn Hlen.
  rewrite (die_ok s w (in_not_nil _ _ Hin)). cbn [snd].
  set (w' := _loop (querySelectorAll w s) unbind w).
  assert (C' : consistent w') by (apply die_loop_consistent; exact C).
  destruct (die_loop_frame (querySelectorAll w s) w) as [_ [Hd _]].
  fold w' in Hd.
  assert (B : bindings_of e w' = tl (bindings_of e w)).
  { unfold w'. rewrite (die_loop_bindings e _ w C).
    rewrite (count_occ_one e _ Hnd Hin). reflexivity. }
  split; [exact B|]. split.
  - rewrite (attached w' C'), (attached w C). unfold expected_listeners.
    rewrite Hd, B. destruct (api (dom w e)); try reflexivity; apply map_tl.
  - apply enabled_true_of_bound; [rewrite Hd; exact Hn|].
    rewrite B. destruct (bindings_of e w) as [|a [|b r]]; cbn in Hlen |- *;
      [lia | lia | discriminate].
Qed.

Lemma bound_twice_consistent : consistent bound_twice.
Proof.
  unfold bound_twice, bound_once.
  rewrite !live_ok by discriminate. cbn [snd].
  apply live_loop_consistent, live_loop_consistent, initial_consistent.
Qed.

Lemma C9_die_removes_earliest_binding_witness :
  1 < length (bindings_of 2 bound_twice)
  /\ bindings_of 2 (snd (die sel_b bound_twice))
     = tl (bindings_of 2 bound_twice)
  /\ listeners (snd (die sel_b bound_twice)) 2 = tl (listeners bound_twice 2)
  /\ enabled (VNode 2) (snd (die sel_b bound_twice)) = true.
Proof.
  split; [vm_compute; lia|].
  apply (C9_die_removes_earliest_binding [0x62%Z] bound_twice 2).
  - exact bound_twice_consistent.
  - exact nodup_2.
  - left. reflexivity.
  - reflexivity.
  - vm_compute. lia.
Defined.

(** *** The first call of the callback *)

Lemma live_loop_first_call (f : nat) (ops : options) (e : elem)
  (elements : list elem) (w : world) :
  consistent w -> In e elements ->
  exists (c : call) (b : binding) (before after : list call)
         (registry : list binding),
    calls (_loop elements (bind f ops) w) = calls w ++ before ++ c :: after
    /\ call_function c = f /\ call_this c = e
    /\ call_result c = _count (dom w e) ops
    /\ call_live c = registry ++ [b] /\ element b = e
    /\ ~ In (handler b) (call_listeners c)
    /\ (api (dom w e) <> NoListenApi ->
        In (handler b) (listeners (_loop elements (bind f ops) w) e)).
Proof.
  intros C. induction elements as [|x r IH]; intros Hin; [destruct Hin|].
  change (_loop (x :: r) (bind f ops) w)
    with (bind f ops x (_loop r (bind f ops) w)).
  set (wr := _loop r (bind f ops) w) in *.
  assert (Cr : consistent wr) by (apply live_loop_consistent; exact C).
  destruct (live_loop_frame f ops r w) as [_ [Hd _]]. fold wr in Hd.
  destruct (Nat.eq_dec x e) as [->|Hne].
  - destruct (live_loop_calls_extend f ops r w) as [new [Hc _]].
    fold wr in Hc.
    exists (call_of_bind f ops e wr), (binding_of_bind f ops e wr), new, [],
      (_liveElements wr).
    rewrite bind_calls, Hc, <- app_assoc. cbn [call_of_bind call_function
      call_this call_result call_live call_listeners binding_of_bind element
      handler]. rewrite Hd.
    repeat split.
    + intros G. apply (listener_is_old wr e _ Cr) in G. cbn in G. lia.
    + intros Ha. rewrite bind_listeners_self; [|exact Cr|rewrite Hd; exact Ha].
      apply in_or_app. right. left. reflexivity.
  - destruct Hin as [Hx|Hin]; [contradiction|].
    destruct (IH Hin) as [c [b [before [after [registry
      [Hc [Hf [Ht [Hr [Hl [He [Hnot Hatt]]]]]]]]]]]].
    exists c, b, before, (after ++ [call_of_bind f ops x wr]), registry.
    rewrite bind_calls, Hc. rewrite <- !app_assoc. cbn [app].
    repeat split; try assumption.
    intros Ha. rewrite bind_listeners_other by congruence. apply Hatt, Ha.
Qed.

(** C10: in a [live] call, each element found gets its entry pushed and
    its callback called before its listener is attached.  The call sees
    the new entry last in the registry, so [enabled] answers true inside
    it, and does not see the new handler among the listeners.  The
    handler is attached afterwards if the element can listen; if it
    cannot, the callback has been called all the same. *)
Theorem C10_first_call_precedes_listener (s : jsstring) (f : nat)
  (options : options_arg) (w : world) (e : elem) :
  consistent w ->
  In e (querySelectorAll w s) ->
  nodeType (dom w e) = 1%Z ->
  exists (c : call) (b : binding) (before after : list call)
         (registry : list binding),
    calls (snd (live (VString s) (VFunction f) options w))
    = calls w ++ before ++ c :: after
    /\ call_function c = f /\ call_this c = e
    /\ call_result c = _count (dom w e) (_extendDefaults options)
    /\ call_live c = registry ++ [b] /\ element b = e
    /\ ~ In (handler b) (call_listeners c)
    /\ enabled (VNode e)
         (world_of_call c (snd (live (VString s) (VFunction f) options w)))
       = true
    /\ (api (dom w e) <> NoListenApi ->
        In (handler b)
          (listeners (snd (live (VString s) (VFunction f) options w)) e))
    /\ (api (dom w e) = NoListenApi ->
        listeners (snd (live (VString s) (VFunction f) options w)) e = []).
Proof.
  intros C Hin Hn.
  rewrite (live_ok s f options w (in_not_nil _ _ Hin)). cbn [snd].
  set (ops := _extendDefaults options).
  set (w' := _loop (querySelectorAll w s) (bind f ops) w).
  destruct (live_loop_first_call f ops e _ w C Hin)
    as [c [b [before [after [registry
      [Hc [Hf [Ht [Hr [Hl [He [Hnot Hatt]]]]]]]]]]]].
  fold w' in Hc, Hatt.
  destruct (live_loop_frame f ops (querySelectorAll w s) w) as [_ [Hd _]].
  fold w' in Hd.
  assert (C' : consistent w') by (apply live_loop_consistent; exact C).
  exists c, b, before, after, registry.
  repeat split; try assumption.
  - rewrite enabled_node. unfold world_of_call. cbn [dom set_liveElements
      _liveElements]. rewrite Hd, Hn, Hl, existsb_app. cbn.
    unfold is_for. rewrite He, Nat.eqb_refl. apply orb_true_r.
  - intros Ha. rewrite (attached w' C'). unfold expected_listeners.
    rewrite Hd, Ha. reflexivity.
Qed.

Lemma C10_first_call_precedes_listener_witness :
  exists (c : call) (b : binding) (before after : list call)
         (registry : list binding),
    calls (snd (live (VString [0x62%Z]) (VFunction 7) no_options sample_page))
    = calls sample_page ++ before ++ c :: after
    /\ call_function c = 7 /\ call_this c = 2
    /\ call_result c = _count (dom sample_page 2) (_extendDefaults no_options)
    /\ call_live c = registry ++ [b] /\ element b = 2
    /\ ~ In (handler b) (call_listeners c)
    /\ enabled (VNode 2)
         (world_of_call c
            (snd (live (VString [0x62%Z]) (VFunction 7) no_options
                    sample_page)))
       = true
    /\ (api (dom sample_page 2) <> NoListenApi ->
        In (handler b)
          (listeners
             (snd (live (VString [0x62%Z]) (VFunction 7) no_options
                     sample_page)) 2))
    /\ (api (dom sample_page 2) = NoListenApi ->
        listeners
          (snd (live (VString [0x62%Z]) (VFunction 7) no_options sample_page))
          2 = []).
Proof.
  apply (C10_first_call_precedes_listener [0x62%Z] 7 no_options sample_page 2).
  - exact sample_page_consistent.
  - left. reflexivity.
  - reflexivity.
Defined.

End RegistryFacts.

(** ** Further properties of the strings *)

Module TextCoverage.
Import Text Counter Vocabulary Coverage TextFacts.

Local Open Scope Z_scope.

(** *** Masks as arithmetic *)

Lemma land_land_disjoint (x a b : Z) :
  Z.land a b = 0 -> Z.land (Z.land x a) (Z.land x b) = 0.
Proof.
  intros H. apply Z.bits_inj'. intros n Hn.
  rewrite !Z.land_spec, Z.bits_0.
  assert (E : Z.testbit a n && Z.testbit b n = false).
  { rewrite <- Z.land_spec, H. apply Z.bits_0. }
  destruct (Z.testbit x n), (Z.testbit a n), (Z.testbit b n);
    try reflexivity; discriminate.
Qed.

Lemma land_split (x a b : Z) :
  Z.land a b = 0 -> Z.land x (Z.lor a b) = Z.land x a + Z.land x b.
Proof.
  intros H. rewrite Z.land_lor_distr_r.
  rewrite <- Z.lxor_lor by (apply land_land_disjoint; exact H).
  symmetry. apply Z.add_nocarry_lxor. apply land_land_disjoint. exact H.
Qed.

Lemma land_low10 (x : Z) : Z.land x 0x3FF = x mod 1024.
Proof. apply (Z.land_ones x 10). lia. Qed.

Lemma land_FC00 (x : Z) :
  0 <= x < 0x10000 -> Z.land x 0xFC00 = x - x mod 1024.
Proof.
  intros H.
  assert (E : Z.land x 0xFFFF = x).
  { change 0xFFFF with (Z.ones 16). rewrite (Z.land_ones x 16) by lia.
    apply Z.mod_small. exact H. }
  change 0xFFFF with (Z.lor 0xFC00 0x3FF) in E.
  rewrite land_split in E by reflexivity. rewrite land_low10 in E. lia.
Qed.

Lemma land_F800 (x : Z) :
  0 <= x < 0x10000 -> Z.land x 0xF800 = x - x mod 2048.
Proof.
  intros H.
  assert (E : Z.land x 0xFFFF = x).
  { change 0xFFFF with (Z.ones 16). rewrite (Z.land_ones x 16) by lia.
    apply Z.mod_small. exact H. }
  change 0xFFFF with (Z.lor 0xF800 (Z.ones 11)) in E.
  rewrite land_split in E by reflexivity.
  rewrite (Z.land_ones x 11) in E by lia. change (2 ^ 11) with 2048 in E. lia.
Qed.

Lemma bmp_scalar_not_surrogate (cp : Z) :
  is_scalar cp = true -> cp < 0x10000 -> is_surrogate cp = false.
Proof.
  unfold is_scalar, is_surrogate. intros H Hlt.
  apply andb_true_iff in H. destruct H as [H Hn].
  apply andb_true_iff in H. destruct H as [H0 _]. apply Z.leb_le in H0.
  apply Z.eqb_neq. rewrite land_F800 by lia. intros E.
  assert (B : (0xD800 <=? cp) && (cp <=? 0xDFFF) = true).
  { apply andb_true_iff. split; apply Z.leb_le;
      pose proof (Z.mod_pos_bound cp 2048); lia. }
  rewrite B in Hn. discriminate.
Qed.

Lemma encode_supplementary (cp : Z) :
  0x10000 <= cp <= 0x10FFFF ->
  is_high_surrogate (0xD800 + Z.shiftr (cp - 0x10000) 10) = true
  /\ is_low_surrogate (0xDC00 + Z.land (cp - 0x10000) 0x3FF) = true
  /\ Z.shiftl (Z.land (0xD800 + Z.shiftr (cp - 0x10000) 10) 0x3FF) 10
     + Z.land (0xDC00 + Z.land (cp - 0x10000) 0x3FF) 0x3FF + 0x10000 = cp.
Proof.
  intros H. unfold is_high_surrogate, is_low_surrogate.
  rewrite Z.shiftr_div_pow2, Z.shiftl_mul_pow2 by lia.
  rewrite !land_low10. change (2 ^ 10) with 1024.
  set (u := cp - 0x10000). assert (Hu : 0 <= u < 0x100000) by (unfold u; lia).
  pose proof (Z.div_mod u 1024 ltac:(lia)) as D.
  pose proof (Z.mod_pos_bound u 1024 ltac:(lia)) as M.
  assert (Q : 0 <= u / 1024 < 1024).
  { split; [apply Z.div_pos; lia | apply Z.div_lt_upper_bound; lia]. }
  assert (Eh : (0xD800 + u / 1024) mod 1024 = u / 1024).
  { replace (0xD800 + u / 1024) with (u / 1024 + 54 * 1024) by lia.
    rewrite Z.mod_add by lia. apply Z.mod_small. lia. }
  assert (El : (0xDC00 + u mod 1024) mod 1024 = u mod 1024).
  { replace (0xDC00 + u mod 1024) with (u mod 1024 + 55 * 1024) by lia.
    rewrite Z.mod_add by lia. apply Z.mod_small. lia. }
  repeat split.
  - apply Z.eqb_eq. rewrite land_FC00 by lia. rewrite Eh. lia.
  - apply Z.eqb_eq. rewrite land_FC00 by lia. rewrite El. lia.
  - rewrite Eh, El. unfold u in *. lia.
Qed.

(** X1: [_decode] inverts UTF-16: decoding the UTF-16 form of a list of
    Unicode scalar values gives the list back. *)
Theorem X1_decode_inverts_utf16 (cps : list Z) :
  forallb is_scalar cps = true -> _decode (utf16 cps) = cps.
Proof.
  induction cps as [|cp r IH]; intros H; [reflexivity|].
  cbn [forallb] in H. apply andb_true_iff in H. destruct H as [Hc Hr].
  cbn [utf16 flat_map]. fold (utf16 r). unfold encode_code_point.
  destruct (Z.ltb_spec cp 0x10000) as [Hlt|Hge].
  - cbn [app]. rewrite decode_cons by (apply bmp_scalar_not_surrogate; auto).
    rewrite IH by exact Hr. reflexivity.
  - assert (B : 0x10000 <= cp <= 0x10FFFF).
    { unfold is_scalar in Hc. apply andb_true_iff in Hc. destruct Hc as [Hc _].
      apply andb_true_iff in Hc. destruct Hc as [_ Hc].
      apply Z.leb_le in Hc. lia. }
    destruct (encode_supplementary cp B) as [Hh [Hl E]].
    cbn [app]. rewrite (decode_pair _ _ _ Hh Hl), E, IH by exact Hr.
    reflexivity.
Qed.

Lemma X1_decode_inverts_utf16_witness :
  forallb is_scalar a_emoji_b = true /\ _decode (utf16 a_emoji_b) = a_emoji_b.
Proof.
  split; [reflexivity|].
  apply (X1_decode_inverts_utf16 a_emoji_b). reflexivity.
Defined.

Lemma decode_step (c e : code_unit) (r : jsstring) :
  _decode (c :: e :: r)
  = if Z.land c 0xF800 =? 0xD800 then
      if Z.land e 0xFC00 =? 0xDC00 then
        (Z.shiftl (Z.land c 0x3FF) 10 + Z.land e 0x3FF + 0x10000) :: _decode r
      else c :: e :: _decode r
    else c :: _decode (e :: r).
Proof. reflexivity. Qed.

Lemma decode_length_bounds (s : jsstring) :
  (length (_decode s) <= length s <= 2 * length (_decode s))%nat.
Proof.
  assert (G : forall s,
             (length (_decode s) <= length s <= 2 * length (_decode s))%nat
             /\ forall c,
                 (length (_decode (c :: s)) <= length (c :: s)
                  <= 2 * length (_decode (c :: s)))%nat).
  { clear s. induction s as [|e r [IH1 IH2]].
    - split; [cbn; lia | intros c; cbn; lia].
    - split; [apply IH2|]. intros c. rewrite decode_step.
      destruct (Z.land c 0xF800 =? 0xD800).
      + destruct (Z.land e 0xFC00 =? 0xDC00); cbn [length] in *; lia.
      + specialize (IH2 e). cbn [length] in *. lia. }
  apply G.
Qed.

(** X2: [_decode] returns at most one value per code unit and at least
    one value per two code units. *)
Theorem X2_decode_length_bounds (s : jsstring) :
  (length (_decode s) <= length s <= 2 * length (_decode s))%nat.
Proof. exact (decode_length_bounds s). Qed.

Lemma decode_without_surrogates (s : jsstring) :
  forallb (fun c => negb (is_surrogate c)) s = true -> _decode s = s.
Proof.
  induction s as [|c r IH]; intros H; [reflexivity|].
  cbn [forallb] in H. apply andb_true_iff in H. destruct H as [Hc Hr].
  apply negb_true_iff in Hc. rewrite (decode_cons c r Hc), IH by exact Hr.
  reflexivity.
Qed.

(** X3: on a text without surrogates [_decode] is the identity, so such a
    text has as many code points as code units. *)
Theorem X3_decode_without_surrogates (s : jsstring) :
  forallb (fun c => negb (is_surrogate c)) s = true -> _decode s = s.
Proof. exact (decode_without_surrogates s). Qed.

Lemma X3_decode_without_surrogates_witness :
  forallb (fun c => negb (is_surrogate c)) a_n_b = true
  /\ _decode a_n_b = a_n_b.
Proof.
  split; [reflexivity|].
  apply (X3_decode_without_surrogates a_n_b). reflexivity.
Defined.

Lemma merged_is_code_point (v e : Z) :
  is_code_point (Z.shiftl (Z.land v 0x3FF) 10 + Z.land e 0x3FF + 0x10000)
  = true.
Proof.
  rewrite Z.shiftl_mul_pow2 by lia. rewrite !land_low10.
  change (2 ^ 10) with 1024.
  pose proof (Z.mod_pos_bound v 1024 ltac:(lia)).
  pose proof (Z.mod_pos_bound e 1024 ltac:(lia)).
  unfold is_code_point. apply andb_true_iff.
  split; [apply Z.leb_le | apply Z.leb_le]; lia.
Qed.

Lemma code_unit_is_code_point (c : Z) :
  is_code_unit c = true -> is_code_point c = true.
Proof.
  unfold is_code_unit, is_code_point. intros H.
  apply andb_true_iff in H. destruct H as [H1 H2].
  apply Z.leb_le in H1. apply Z.ltb_lt in H2.
  apply andb_true_iff. split; apply Z.leb_le; lia.
Qed.

(** X4: whatever the 16-bit code units are, paired or not, every value
    [_decode] returns lies in the code point range 0 to 0x10FFFF. *)
Theorem X4_decode_stays_in_range (s : jsstring) :
  forallb is_code_unit s = true -> forallb is_code_point (_decode s) = true.
Proof.
  assert (G : forall s,
             (forallb is_code_unit s = true ->
              forallb is_code_point (_decode s) = true)
             /\ forall c,
                 forallb is_code_unit (c :: s) = true ->
                 forallb is_code_point (_decode (c :: s)) = true).
  { clear s. induction s as [|e r [IH1 IH2]].
    - split; [reflexivity|]. intros c H. cbn in H |- *.
      rewrite andb_true_r in H |- *. apply code_unit_is_code_point, H.
    - split; [apply IH2|]. intros c H.
      cbn [forallb] in H. apply andb_true_iff in H. destruct H as [Hc H].
      pose proof H as Her. cbn [forallb] in H.
      apply andb_true_iff in H. destruct H as [He Hr].
      rewrite decode_step. destruct (Z.land c 0xF800 =? 0xD800).
      + destruct (Z.land e 0xFC00 =? 0xDC00); cbn [forallb].
        * rewrite merged_is_code_point, (IH1 Hr). reflexivity.
        * rewrite (code_unit_is_code_point c Hc),
            (code_unit_is_code_point e He), (IH1 Hr). reflexivity.
      + cbn [forallb]. rewrite (code_unit_is_code_point c Hc).
        apply (IH2 e Her). }
  apply G.
Qed.

Lemma X4_decode_stays_in_range_witness :
  forallb is_code_unit two_low_halves = true
  /\ forallb is_code_point (_decode two_low_halves) = true.
Proof.
  split; [reflexivity|].
  apply (X4_decode_stays_in_range two_low_halves). reflexivity.
Defined.

End TextCoverage.

(** ** Further properties of the counter *)

Module CounterCoverage.
Import Text Counter Vocabulary Coverage TextFacts CounterFacts TextCoverage.

Local Open Scope nat_scope.

(** *** Trimming *)

Lemma drop_space_split (s : jsstring) :
  exists ws, s = ws ++ drop_space s /\ forallb is_space ws = true.
Proof.
  induction s as [|c r [ws [E H]]]; [exists []; split; reflexivity|].
  cbn [drop_space]. destruct (is_space c) eqn:Ec.
  - exists (c :: ws). cbn [forallb app]. rewrite Ec, H, <- E.
    split; reflexivity.
  - exists []. split; reflexivity.
Qed.

Lemma drop_space_head (s : jsstring) (c : code_unit) (r : jsstring) :
  drop_space s = c :: r -> is_space c = false.
Proof.
  induction s as [|a s IH]; [discriminate|].
  cbn [drop_space]. destruct (is_space a) eqn:Ea; [exact IH|].
  intros H. injection H as <- _. exact Ea.
Qed.



Lemma forallb_rev {A} (p : A -> bool) (l : list A) :
  forallb p (rev l) = forallb p l.
Proof.
  induction l as [|a l IH]; [reflexivity|].
  cbn [rev forallb]. rewrite forallb_app, IH. cbn. rewrite andb_true_r.
  apply andb_comm.
Qed.

Lemma trim_split (s : jsstring) :
  exists ws1 ws2,
    s = ws1 ++ trim s ++ ws2
    /\ forallb is_space ws1 = true /\ forallb is_space ws2 = true.
Proof.
  destruct (drop_space_split s) as [ws1 [E1 H1]].
  destruct (drop_space_split (rev (drop_space s))) as [ws [E2 H2]].
  exists ws1, (rev ws). unfold trim. repeat split.
  - rewrite <- rev_app_distr, <- E2, rev_involutive. exact E1.
  - exact H1.
  - rewrite forallb_rev. exact H2.
Qed.

Lemma trim_head (s : jsstring) (c : code_unit) (r : jsstring) :
  trim s = c :: r -> is_space c = false.
Proof.
  intros H. destruct (drop_space_split (rev (drop_space s))) as [ws [E _]].
  apply (f_equal (@rev _)) in E. rewrite rev_involutive, rev_app_distr in E.
  fold (trim s) in E. rewrite H in E. cbn [app] in E.
  apply (drop_space_head s c (r ++ rev ws)). exact E.
Qed.

Lemma trim_last (s : jsstring) (c : code_unit) (r : jsstring) :
  trim s = r ++ [c] -> is_space c = false.
Proof.
  unfold trim. intros H. apply (f_equal (@rev _)) in H.
  rewrite rev_involutive, rev_app_distr in H. cbn in H.
  apply (drop_space_head _ _ _ H).
Qed.

Lemma drop_space_fixed (s : jsstring) :
  (forall c r, s = c :: r -> is_space c = false) -> drop_space s = s.
Proof.
  destruct s as [|c r]; intros H; [reflexivity|].
  cbn [drop_space]. rewrite (H c r eq_refl). reflexivity.
Qed.

(** X5: [trim] removes white space at both ends and nothing else: the
    text is the trimmed text between two runs of white space, the trimmed
    text neither starts nor ends with white space, and trimming it again
    changes nothing. *)
Theorem X5_trim_removes_surrounding_space (s : jsstring) :
  (exists ws1 ws2,
      s = ws1 ++ trim s ++ ws2
      /\ forallb is_space ws1 = true /\ forallb is_space ws2 = true)
  /\ (forall c r, trim s = c :: r -> is_space c = false)
  /\ (forall c r, trim s = r ++ [c] -> is_space c = false)
  /\ trim (trim s) = trim s.
Proof.
  split; [apply trim_split|]. split; [apply trim_head|].
  split; [apply trim_last|].
  unfold trim at 1. rewrite (drop_space_fixed (trim s) (trim_head s)).
  rewrite drop_space_fixed; [apply rev_involutive|].
  intros c r H. apply (trim_last s c (rev r)).
  rewrite <- (rev_involutive (trim s)), H. reflexivity.
Qed.

Lemma trim_blank (s : jsstring) :
  truthy (trim s) = negb (forallb is_space s).
Proof.
  destruct (trim_split s) as [ws1 [ws2 [E [H1 H2]]]].
  rewrite E at 2. rewrite !forallb_app, H1, H2, andb_true_r. cbn [andb].
  destruct (trim s) as [|c r] eqn:T; [reflexivity|].
  cbn [truthy forallb]. rewrite (trim_head s c r T). reflexivity.
Qed.

(** *** Matching runs *)

Lemma re_repeat_one (p : code_unit -> bool) (c : code_unit) (r : jsstring) :
  re_repeat 1 p (c :: r) = if p c then Some (S (run_length p r)) else None.
Proof. unfold re_repeat. cbn [run_length]. destruct (p c); reflexivity. Qed.

Lemma match_runs (p : code_unit -> bool) (s : jsstring) :
  match_g_length (re_repeat 1 p) (run_length p s) s = runs p true s
  /\ match_g_length (re_repeat 1 p) 0 s = runs p false s.
Proof.
  induction s as [|c r [IH1 IH2]]; [split; reflexivity|].
  cbn [run_length runs match_g_length]. rewrite re_repeat_one.
  destruct (p c).
  - rewrite IH1. split; reflexivity.
  - rewrite IH2. split; reflexivity.
Qed.

Lemma replace_runs (p : code_unit -> bool) (s : jsstring) :
  replace_g (re_repeat 1 p) (run_length p s) s
  = filter (fun c => negb (p c)) s
  /\ replace_g (re_repeat 1 p) 0 s = filter (fun c => negb (p c)) s.
Proof.
  induction s as [|c r [IH1 IH2]]; [split; reflexivity|].
  cbn [run_length filter replace_g]. rewrite re_repeat_one.
  destruct (p c); cbn [negb].
  - rewrite IH1. split; reflexivity.
  - rewrite IH2. split; reflexivity.
Qed.

Lemma runs_none (p : code_unit -> bool) (b : bool) (s : jsstring) :
  forallb (fun c => negb (p c)) s = true -> runs p b s = 0.
Proof.
  revert b. induction s as [|c r IH]; intros b H; [reflexivity|].
  cbn [forallb] in H. apply andb_true_iff in H. destruct H as [Hc Hr].
  apply negb_true_iff in Hc. cbn [runs]. rewrite Hc. apply IH, Hr.
Qed.

Lemma runs_after_none (p : code_unit -> bool) (ws x : jsstring) :
  forallb (fun c => negb (p c)) ws = true ->
  runs p false (ws ++ x) = runs p false x.
Proof.
  induction ws as [|c r IH]; intros H; [reflexivity|].
  cbn [forallb] in H. apply andb_true_iff in H. destruct H as [Hc Hr].
  apply negb_true_iff in Hc. cbn [app runs]. rewrite Hc. apply IH, Hr.
Qed.

Lemma runs_before_none (p : code_unit -> bool) (b : bool) (x ws : jsstring) :
  forallb (fun c => negb (p c)) ws = true ->
  runs p b (x ++ ws) = runs p b x.
Proof.
  intros H. revert b. induction x as [|c r IH]; intros b.
  - apply runs_none. exact H.
  - cbn [app runs]. destruct (p c); rewrite IH; reflexivity.
Qed.

Lemma forallb_filter_keep {A} (p q : A -> bool) (l : list A) :
  forallb p l = true -> forallb p (filter q l) = true.
Proof.
  induction l as [|a l IH]; intros H; [reflexivity|].
  cbn [forallb] in H. apply andb_true_iff in H. destruct H as [Ha Hl].
  cbn [filter]. destruct (q a); cbn [forallb]; rewrite ?Ha; apply IH, Hl.
Qed.

Lemma space_is_not_nonspace (ws : jsstring) :
  forallb is_space ws = true ->
  forallb (fun c => negb (is_nonspace c)) ws = true.
Proof.
  induction ws as [|c r IH]; intros H; [reflexivity|].
  cbn [forallb] in H |- *. apply andb_true_iff in H. destruct H as [Hc Hr].
  unfold is_nonspace at 1. rewrite Hc. cbn. apply IH, Hr.
Qed.

Lemma words_are_runs (t : jsstring) (cfg : options_arg) :
  words (count t cfg)
  = runs is_nonspace false
      (filter (fun c => negb (is_punctuation c))
         (strip t (_extendDefaults cfg))).
Proof.
  unfold count, count_text. cbn [words].
  set (s := strip t (_extendDefaults cfg)).
  destruct (trim_split s) as [ws1 [ws2 [E [H1 H2]]]].
  rewrite E at 3. rewrite !filter_app.
  rewrite runs_after_none
    by (apply space_is_not_nonspace, forallb_filter_keep; exact H1).
  rewrite runs_before_none
    by (apply space_is_not_nonspace, forallb_filter_keep; exact H2).
  destruct (trim s) as [|c r]; [reflexivity|]. cbn [truthy].
  rewrite (proj2 (replace_runs is_punctuation (c :: r))).
  apply (proj2 (match_runs is_nonspace _)).
Qed.

(** X8: [words] is the number of maximal runs of characters other than
    white space that are left when the punctuation characters are deleted
    from the counted text; the trimming does not matter. *)
Theorem X8_words_are_runs (t : jsstring) (cfg : options_arg) :
  words (count t cfg)
  = runs is_nonspace false
      (filter (fun c => negb (is_punctuation c))
         (strip t (_extendDefaults cfg))).
Proof. exact (words_are_runs t cfg). Qed.

(** *** Texts without a tag *)

Lemma re_tag_needs_lt (c : code_unit) (r : jsstring) :
  is_lt_sign c = false -> re_tag (c :: r) = None.
Proof. unfold is_lt_sign, re_tag. intros ->. reflexivity. Qed.

Lemma strip_tags_without_lt (s : jsstring) :
  forallb (fun c => negb (is_lt_sign c)) s = true -> replace_g re_tag 0 s = s.
Proof.
  induction s as [|c r IH]; intros H; [reflexivity|].
  cbn [forallb] in H. apply andb_true_iff in H. destruct H as [Hc Hr].
  apply negb_true_iff in Hc. cbn [replace_g].
  rewrite (re_tag_needs_lt c r Hc), IH by exact Hr. reflexivity.
Qed.

Lemma strip_without_lt (t : jsstring) (ops : options) :
  forallb (fun c => negb (is_lt_sign c)) t = true -> strip t ops = t.
Proof.
  intros H. unfold strip. destruct (stripTags ops); [|reflexivity].
  apply strip_tags_without_lt, H.
Qed.

(** X11: on a text that contains no less-than sign, [stripTags] changes
    nothing: the four counts are those obtained without the option. *)
Theorem X11_strip_tags_needs_a_tag (t : jsstring) (h s : option bool) :
  forallb (fun c => negb (is_lt_sign c)) t = true ->
  count t {| arg_hardReturns := h; arg_stripTags := s |}
  = count t {| arg_hardReturns := h; arg_stripTags := None |}.
Proof.
  intros H. unfold count, count_text. rewrite !(strip_without_lt t _ H).
  reflexivity.
Qed.

Lemma X11_strip_tags_needs_a_tag_witness :
  forallb (fun c => negb (is_lt_sign c)) a_n_b = true
  /\ count a_n_b {| arg_hardReturns := None; arg_stripTags := Some true |}
     = count a_n_b {| arg_hardReturns := None; arg_stripTags := None |}.
Proof.
  split; [reflexivity|].
  apply (X11_strip_tags_needs_a_tag a_n_b None (Some true)). reflexivity.
Defined.

(** *** Blank texts *)

Lemma space_is_not_lt (s : jsstring) :
  forallb is_space s = true ->
  forallb (fun c => negb (is_lt_sign c)) s = true.
Proof.
  induction s as [|c r IH]; intros H; [reflexivity|].
  cbn [forallb] in H |- *. apply andb_true_iff in H. destruct H as [Hc Hr].
  rewrite (IH Hr), andb_true_r. unfold is_lt_sign.
  destruct (Z.eqb_spec c 0x3C%Z) as [->|]; [discriminate | reflexivity].
Qed.

Lemma space_is_not_surrogate (s : jsstring) :
  forallb is_space s = true ->
  forallb (fun c => negb (is_surrogate c)) s = true.
Proof.
  induction s as [|c r IH]; intros H; [reflexivity|].
  cbn [forallb] in H |- *. apply andb_true_iff in H. destruct H as [Hc Hr].
  rewrite (space_not_surrogate c Hc), (IH Hr). reflexivity.
Qed.

Lemma filter_nonspace_blank (s : jsstring) :
  filter is_nonspace s = [] <-> forallb is_space s = true.
Proof.
  induction s as [|c r IH]; [cbn; tauto|].
  cbn [filter forallb]. unfold is_nonspace at 1.
  destruct (is_space c); cbn [negb andb]; [exact IH|].
  split; discriminate.
Qed.

Lemma decode_nil (s : jsstring) : length (_decode s) = 0 <-> s = [].
Proof.
  pose proof (decode_length_bounds s) as B. split.
  - intros H. apply length_zero_iff_nil. lia.
  - intros ->. reflexivity.
Qed.

(** X6: a text of white space only has no paragraph, no word and no
    character, whatever the options; its [all] is the number of its code
    units other than line feeds and carriage returns. *)
Theorem X6_blank_text_counts (t : jsstring) (cfg : options_arg) :
  forallb is_space t = true ->
  count t cfg
  = {| paragraphs := 0; words := 0; characters := 0;
       all := length (filter (fun c => negb (is_line_terminator c)) t) |}.
Proof.
  intros H. unfold count, count_text.
  rewrite (strip_without_lt t _ (space_is_not_lt t H)).
  pose proof (trim_blank t) as T. rewrite H in T. cbn [negb] in T.
  rewrite T, replace_one_filter.
  rewrite decode_without_surrogates; [reflexivity|].
  apply forallb_filter_keep, space_is_not_surrogate, H.
Qed.

Lemma X6_blank_text_counts_witness :
  forallb is_space blank_text = true
  /\ count blank_text no_options
     = {| paragraphs := 0; words := 0; characters := 0;
          all := length (filter (fun c => negb (is_line_terminator c))
                           blank_text) |}.
Proof.
  split; [reflexivity|].
  apply (X6_blank_text_counts blank_text no_options). reflexivity.
Defined.

(** X7: [paragraphs] is 0 exactly when the counted text is white space
    only, and so is [characters]; any other text has at least one
    paragraph and one character. *)
Theorem X7_zero_exactly_when_blank (t : jsstring) (cfg : options_arg) :
  (paragraphs (count t cfg) = 0
   <-> forallb is_space (strip t (_extendDefaults cfg)) = true)
  /\ (characters (count t cfg) = 0
      <-> forallb is_space (strip t (_extendDefaults cfg)) = true).
Proof.
  unfold count. rewrite characters_count_text.
  unfold count_text. cbn [paragraphs].
  set (s := strip t (_extendDefaults cfg)).
  rewrite trim_blank, decode_nil, filter_nonspace_blank.
  split; [|tauto].
  destruct (forallb is_space s); cbn [negb]; split; intros H;
    try reflexivity; try discriminate; lia.
Qed.

(** *** Words and characters *)

Lemma punctuation_not_surrogate (c : code_unit) :
  is_punctuation c = true -> is_surrogate c = false.
Proof.
  unfold is_punctuation. intros H.
  repeat (apply orb_true_iff in H; destruct H as [H|H]);
    apply Z.eqb_eq in H; subst c; reflexivity.
Qed.

Lemma filter_well_formed (p : code_unit -> bool) (s : jsstring) :
  (forall c, is_surrogate c = true -> p c = true) ->
  well_formed s = true -> well_formed (filter p s) = true.
Proof.
  intros Hp. revert s.
  apply (well_formed_induction
           (fun s => well_formed (filter p s) = true)).
  - reflexivity.
  - intros c r Hc _ IH. cbn [filter].
    destruct (p c); [rewrite (well_formed_cons _ _ Hc)|]; exact IH.
  - intros h l r Hh Hl _ IH. cbn [filter].
    rewrite (Hp h (high_is_surrogate _ Hh)), (Hp l (low_is_surrogate _ Hl)).
    rewrite (well_formed_pair _ _ _ Hh Hl). exact IH.
Qed.

Lemma filter_comm {A} (p q : A -> bool) (l : list A) :
  filter p (filter q l) = filter q (filter p l).
Proof.
  induction l as [|a l IH]; [reflexivity|].
  cbn [filter]. destruct (p a) eqn:Ep, (q a) eqn:Eq; cbn [filter];
    rewrite ?Ep, ?Eq, IH; reflexivity.
Qed.

Lemma surrogate_is_nonspace (c : code_unit) :
  is_surrogate c = true -> is_nonspace c = true.
Proof.
  intros H. unfold is_nonspace. destruct (is_space c) eqn:E; [|reflexivity].
  apply space_not_surrogate in E. congruence.
Qed.

Lemma runs_at_most_code_points (s : jsstring) :
  well_formed s = true ->
  forall b, runs is_nonspace b s <= length (_decode (filter is_nonspace s)).
Proof.
  revert s.
  apply (well_formed_induction
           (fun s => forall b,
                runs is_nonspace b s
                <= length (_decode (filter is_nonspace s)))).
  - intros b. cbn. lia.
  - intros c r Hc _ IH b. cbn [runs filter]. destruct (is_nonspace c).
    + rewrite (decode_cons _ _ Hc). cbn [length].
      specialize (IH true). destruct b; lia.
    + apply IH.
  - intros h l r Hh Hl _ IH b. cbn [runs filter].
    rewrite (surrogate_is_nonspace h (high_is_surrogate _ Hh)).
    rewrite (surrogate_is_nonspace l (low_is_surrogate _ Hl)).
    rewrite (decode_pair _ _ _ Hh Hl). cbn [length].
    specialize (IH true). destruct b; lia.
Qed.

(** X9: a well-formed UTF-16 text never has more words than
    characters. *)
Theorem X9_words_at_most_characters (t : jsstring) (cfg : options_arg) :
  well_formed t = true ->
  words (count t cfg) <= characters (count t cfg).
Proof.
  intros Hwf. rewrite words_are_runs.
  unfold count. rewrite characters_count_text.
  set (s := strip t (_extendDefaults cfg)).
  assert (Hs : well_formed s = true) by (apply strip_well_formed; exact Hwf).
  set (np := fun c => negb (is_punctuation c)).
  assert (Pnp : forall c, is_surrogate c = true -> np c = true).
  { intros c Hc. unfold np. destruct (is_punctuation c) eqn:E; [|reflexivity].
    apply punctuation_not_surrogate in E. congruence. }
  pose proof (runs_at_most_code_points (filter np s)
                (filter_well_formed np s Pnp Hs) false) as R.
  rewrite filter_comm in R.
  pose proof (decode_filter np (filter is_nonspace s) Pnp
                (filter_well_formed is_nonspace s surrogate_is_nonspace Hs))
    as D.
  lia.
Qed.

Lemma X9_words_at_most_characters_witness :
  well_formed two_emoji = true
  /\ words (count two_emoji no_options)
     <= characters (count two_emoji no_options).
Proof.
  split; [reflexivity|].
  apply (X9_words_at_most_characters two_emoji no_options). reflexivity.
Defined.

(** *** Hard returns *)

Lemma re_repeat_two (p : code_unit -> bool) (c : code_unit) (r : jsstring) :
  re_repeat 2 p (c :: r)
  = if p c then
      match run_length p r with
      | O => None
      | S n => Some (S (S n))
      end
    else None.
Proof.
  unfold re_repeat. cbn [run_length]. destruct (p c); [|reflexivity].
  destruct (run_length p r); reflexivity.
Qed.

Lemma long_runs_among_runs (p : code_unit -> bool) (s : jsstring) :
  match_g_length (re_repeat 2 p) 0 s <= match_g_length (re_repeat 1 p) 0 s
  /\ match_g_length (re_repeat 2 p) (run_length p s) s
     <= match_g_length (re_repeat 1 p) (run_length p s) s.
Proof.
  induction s as [|c r [IH1 IH2]]; [split; cbn; lia|].
  cbn [run_length match_g_length]. rewrite re_repeat_one, re_repeat_two.
  destruct (p c).
  - split; [|exact IH2].
    destruct (run_length p r) as [|n] eqn:E; lia.
  - split; exact IH1.
Qed.

(** X10: with [hardReturns] a text never has more paragraphs than
    without it; the other three counts do not depend on the option. *)
Theorem X10_hard_returns_give_fewer_paragraphs (t : jsstring)
  (s : option bool) :
  paragraphs (count t {| arg_hardReturns := Some true; arg_stripTags := s |})
  <= paragraphs
       (count t {| arg_hardReturns := Some false; arg_stripTags := s |})
  /\ words (count t {| arg_hardReturns := Some true; arg_stripTags := s |})
     = words (count t {| arg_hardReturns := Some false; arg_stripTags := s |})
  /\ characters
       (count t {| arg_hardReturns := Some true; arg_stripTags := s |})
     = characters
         (count t {| arg_hardReturns := Some false; arg_stripTags := s |})
  /\ all (count t {| arg_hardReturns := Some true; arg_stripTags := s |})
     = all (count t {| arg_hardReturns := Some false; arg_stripTags := s |}).
Proof.
  unfold count, count_text, strip, _extendDefaults.
  cbn [paragraphs words characters all hardReturns stripTags
       arg_hardReturns arg_stripTags].
  split; [|repeat split].
  destruct (truthy _); [|lia].
  pose proof (proj1 (long_runs_among_runs is_lf
    (trim (if match s with Some b => b | None => false end
           then replace_g re_tag 0 t else t)))) as L.
  lia.
Qed.

(** *** White space around the text *)












End CounterCoverage.

(** ** Further properties of the registry *)

Module RegistryCoverage.
Import Text Counter Registry Vocabulary Coverage RegistryFacts.

Local Open Scope nat_scope.

(** *** Validation *)

Lemma function_is_truthy (v : jsval) :
  is_function v = true -> to_boolean v = true.
Proof. destruct v; try discriminate. reflexivity. Qed.

(** X13: validation succeeds exactly when the selector is a string, at
    least one element was found and the callback is a function. *)
Theorem X13_validation_accepts (selector callback : jsval)
  (elements : list elem) (w : world) :
  fst (_validateArguments selector elements callback w) = true
  <-> is_string selector = true /\ elements <> []
      /\ is_function callback = true.
Proof.
  split.
  - intros H. destruct (validate_true _ _ _ _ H) as [[s ->] [He [f ->]]].
    repeat split. exact He.
  - intros [Hs [He Hc]]. unfold _validateArguments. cbn [fst].
    rewrite Hs, Hc, (function_is_truthy _ Hc).
    destruct elements; [contradiction | reflexivity].
Qed.

Lemma app_one_longer {A} (l : list A) (a : A) : l ++ [a] <> l.
Proof.
  intros H. apply (f_equal (@length A)) in H.
  rewrite length_app in H. cbn in H. lia.
Qed.

Lemma app_two_longer {A} (l : list A) (a b : A) : (l ++ [a]) ++ [b] <> l.
Proof.
  intros H. apply (f_equal (@length A)) in H.
  rewrite !length_app in H. cbn in H. lia.
Qed.

(** X14: the diagnostics are exact.  Without a console validation leaves
    the world as it is; with a console it adds a warning exactly when it
    fails. *)
Theorem X14_validation_warns_exactly_on_failure (selector callback : jsval)
  (elements : list elem) (w : world) :
  (console_warn w = false ->
   snd (_validateArguments selector elements callback w) = w)
  /\ (console_warn w = true ->
      (fst (_validateArguments selector elements callback w) = true
       <-> warnings (snd (_validateArguments selector elements callback w))
           = warnings w)).
Proof.
  unfold _validateArguments. cbn [fst snd]. split; intros C; rewrite C;
    [reflexivity|].
  destruct (is_string selector); cbn [negb andb].
  - destruct (negb (length elements =? 0)); cbn [negb andb].
    + destruct (to_boolean callback && is_function callback); cbn [negb].
      * split; reflexivity.
      * cbn [warn warnings]. split; [discriminate|].
        intros H. exfalso. exact (app_one_longer _ _ H).
    + split; [discriminate|].
      destruct (to_boolean callback && is_function callback);
        cbn [negb warn warnings]; intros H; exfalso.
      * exact (app_one_longer _ _ H).
      * exact (app_two_longer _ _ _ H).
  - split; [discriminate|].
    destruct (to_boolean callback && is_function callback);
      cbn [negb warn warnings]; intros H; exfalso.
    + exact (app_one_longer _ _ H).
    + exact (app_two_longer _ _ _ H).
Qed.

(** *** [enabled] *)

(** X15: [enabled] answers true exactly for an element node that some
    entry of the registry holds; for anything else, a node of another
    type included, it answers false. *)
Theorem X15_enabled_exactly_for_bound_elements (v : jsval) (w : world) :
  enabled v w = true
  <-> exists e,
        v = VNode e /\ nodeType (dom w e) = 1%Z
        /\ exists b, In b (_liveElements w) /\ element b = e.
Proof.
  split.
  - intros H. destruct v; try discriminate. exists n.
    rewrite enabled_node in H. apply andb_true_iff in H. destruct H as [Hn Hb].
    apply Z.eqb_eq in Hn. apply existsb_exists in Hb.
    destruct Hb as [b [Hin Hb]]. unfold is_for in Hb. apply Nat.eqb_eq in Hb.
    split; [reflexivity|]. split; [exact Hn|]. exists b. split; assumption.
  - intros [e [-> [Hn [b [Hin Hb]]]]]. rewrite enabled_node, Hn. cbn.
    apply existsb_exists. exists b. split; [exact Hin|].
    unfold is_for. apply Nat.eqb_eq. exact Hb.
Qed.

(** *** [die] *)

Lemma find_unbound (x : elem) (w : world) :
  bindings_of x w = [] -> find (is_for x) (_liveElements w) = None.
Proof.
  unfold bindings_of. intros H.
  destruct (find (is_for x) (_liveElements w)) as [b|] eqn:E; [|reflexivity].
  apply find_some in E. destruct E as [Hin Hb].
  assert (G : In b (filter (is_for x) (_liveElements w)))
    by (apply filter_In; split; assumption).
  rewrite H in G. destruct G.
Qed.

Lemma unbind_unbound (x : elem) (w : world) :
  bindings_of x w = [] -> unbind x w = w.
Proof.
  intros H. unfold unbind. rewrite loop_find, (find_unbound x w H).
  reflexivity.
Qed.

Lemma die_loop_unbound (elements : list elem) (w : world) :
  (forall e, In e elements -> bindings_of e w = []) ->
  _loop elements unbind w = w.
Proof.
  unfold _loop. induction elements as [|x r IH]; intros H; [reflexivity|].
  cbn [fold_right]. rewrite IH by (intros e He; apply H; right; exact He).
  apply unbind_unbound. apply H. left. reflexivity.
Qed.

(** X17: [die] on a selector whose elements have no entry changes
    nothing at all, and returns the Countable object. *)
Theorem X17_die_without_binding_is_no_op (s : jsstring) (w : world) :
  querySelectorAll w s <> [] ->
  (forall e, In e (querySelectorAll w s) -> bindings_of e w = []) ->
  die (VString s) w = (Return VCountable, w).
Proof.
  intros Hne H. rewrite (die_ok s w Hne), (die_loop_unbound _ w H).
  reflexivity.
Qed.

Lemma X17_die_without_binding_is_no_op_witness :
  die sel_a sample_page = (Return VCountable, sample_page).
Proof.
  apply (X17_die_without_binding_is_no_op [0x61%Z] sample_page).
  - discriminate.
  - intros e _. reflexivity.
Defined.

(** X18: [die] never calls a callback and creates no function, whatever
    its argument. *)
Theorem X18_die_calls_nothing (selector : jsval) (w : world) :
  calls (snd (die selector w)) = calls w
  /\ next_function (snd (die selector w)) = next_function w.
Proof.
  unfold die.
  pose proof (validate_fields selector (VFunction (next_function w))
                (_query selector w) w) as V.
  destruct (_validateArguments _ _ _ w) as [v w1]. cbn [snd] in V.
  destruct V as [_ [_ [_ [_ [_ [Hn Hc]]]]]].
  destruct v; cbn [negb snd]; [|split; assumption].
  destruct (die_loop_frame (_query selector w) w1)
    as [_ [_ [_ [_ [-> ->]]]]].
  split; assumption.
Qed.

(** *** Elements that a call does not resolve *)

Lemma live_loop_other (f : nat) (ops : options) (e : elem)
  (elements : list elem) (w : world) :
  ~ In e elements ->
  bindings_of e (_loop elements (bind f ops) w) = bindings_of e w
  /\ listeners (_loop elements (bind f ops) w) e = listeners w e.
Proof.
  unfold _loop. induction elements as [|x r IH]; intros H;
    [split; reflexivity|].
  cbn [fold_right].
  assert (Hne : e <> x) by (intros ->; apply H; left; reflexivity).
  destruct IH as [IH1 IH2]; [intros G; apply H; right; exact G|].
  rewrite bindings_of_bind, bind_listeners_other by exact Hne.
  assert (E : (x =? e) = false) by (apply Nat.eqb_neq; congruence).
  rewrite E, app_nil_r. split; assumption.
Qed.

Lemma die_loop_other (e : elem) (elements : list elem) (w : world) :
  consistent w -> ~ In e elements ->
  bindings_of e (_loop elements unbind w) = bindings_of e w
  /\ listeners (_loop elements unbind w) e = listeners w e.
Proof.
  intros C. induction elements as [|x r IH]; intros H; [split; reflexivity|].
  change (_loop (x :: r) unbind w) with (unbind x (_loop r unbind w)).
  assert (Hne : e <> x) by (intros ->; apply H; left; reflexivity).
  destruct IH as [IH1 IH2]; [intros G; apply H; right; exact G|].
  rewrite bindings_of_unbind by (apply die_loop_consistent; exact C).
  rewrite unbind_listeners_other by exact Hne.
  assert (E : (e =? x) = false) by (apply Nat.eqb_neq; exact Hne).
  rewrite E. split; assumption.
Qed.

Lemma bindings_of_ext (e : elem) (w w' : world) :
  _liveElements w' = _liveElements w -> bindings_of e w' = bindings_of e w.
Proof. intros H. unfold bindings_of. rewrite H. reflexivity. Qed.

(** X19: a call of [live], [die] or [once] leaves alone every element
    that its selector does not find: the entries and the listeners of
    such an element are the same afterwards. *)
Theorem X19_other_elements_are_left_alone (m : invocation) (w : world)
  (e : elem) :
  consistent w ->
  ~ In e (_query (selector_of m) w) ->
  bindings_of e (snd (invoke m w)) = bindings_of e w
  /\ listeners (snd (invoke m w)) e = listeners w e.
Proof.
  intros C H.
  destruct m as [selector callback options|selector|selector callback options];
    cbn [invoke selector_of] in H |- *.
  - unfold live.
    pose proof (validate_fields selector callback (_query selector w) w) as V.
    destruct (_validateArguments _ _ _ w) as [v w1]. cbn [snd] in V.
    destruct V as [_ [_ [_ [Hl [Hs _]]]]].
    assert (B : bindings_of e w1 = bindings_of e w /\
                listeners w1 e = listeners w e).
    { split; [apply bindings_of_ext; exact Hl | rewrite Hs; reflexivity]. }
    destruct v; cbn [negb]; [|exact B].
    destruct callback; try exact B. cbn [snd].
    destruct (live_loop_other f (_extendDefaults options) e _ w1 H)
      as [-> ->].
    exact B.
  - unfold die.
    pose proof (validate_fields selector (VFunction (next_function w))
                  (_query selector w) w) as V.
    pose proof (validate_consistent selector (VFunction (next_function w))
                  (_query selector w) w C) as C1.
    destruct (_validateArguments _ _ _ w) as [v w1]. cbn [snd] in V, C1.
    destruct V as [_ [_ [_ [Hl [Hs _]]]]].
    assert (B : bindings_of e w1 = bindings_of e w /\
                listeners w1 e = listeners w e).
    { split; [apply bindings_of_ext; exact Hl | rewrite Hs; reflexivity]. }
    destruct v; cbn [negb snd]; [|exact B].
    destruct (die_loop_other e _ w1 C1 H) as [-> ->]. exact B.
  - unfold once.
    pose proof (validate_fields selector callback (_query selector w) w) as V.
    destruct (_validateArguments _ _ _ w) as [v w1]. cbn [snd] in V.
    destruct V as [_ [_ [_ [Hl [Hs _]]]]].
    assert (B : bindings_of e w1 = bindings_of e w /\
                listeners w1 e = listeners w e).
    { split; [apply bindings_of_ext; exact Hl | rewrite Hs; reflexivity]. }
    destruct v; cbn [negb]; [|exact B].
    destruct callback; try exact B. cbn [snd].
    pose proof (once_loop_frame f options (_query selector w) w1) as O.
    cbv zeta in O. destruct O as [Ol [Os _]].
    rewrite (bindings_of_ext e _ _ Ol), Os. exact B.
Qed.

Lemma X19_other_elements_are_left_alone_witness :
  bindings_of 1 (snd (invoke (Die sel_b) bound_twice))
  = bindings_of 1 bound_twice
  /\ listeners (snd (invoke (Die sel_b) bound_twice)) 1
     = listeners bound_twice 1.
Proof.
  apply (X19_other_elements_are_left_alone (Die sel_b) bound_twice 1).
  - exact bound_twice_consistent.
  - intros [H|[]]. discriminate.
Defined.

(** *** [live] *)

(** X20: after a successful [live], every element the selector finds is
    enabled, whatever the registry held before, and the call returns the
    Countable object. *)
Theorem X20_live_enables_every_element (s : jsstring) (f : nat)
  (options : options_arg) (w : world) (e : elem) :
  In e (querySelectorAll w s) ->
  nodeType (dom w e) = 1%Z ->
  fst (live (VString s) (VFunction f) options w) = Return VCountable
  /\ enabled (VNode e) (snd (live (VString s) (VFunction f) options w))
     = true.
Proof.
  intros Hin Hn. rewrite (live_ok s f options w (in_not_nil _ _ Hin)).
  cbn [fst snd]. split; [reflexivity|].
  destruct (live_loop_frame f (_extendDefaults options)
              (querySelectorAll w s) w) as [_ [Hd _]].
  apply enabled_true_of_bound; [rewrite Hd; exact Hn|].
  intros H. apply (f_equal (@length binding)) in H.
  rewrite live_loop_bindings in H.
  apply (count_occ_In Nat.eq_dec) in Hin. cbn [length] in H. lia.
Qed.

Lemma X20_live_enables_every_element_witness :
  fst (live (VString [0x61%Z]) (VFunction 7) no_options sample_page)
  = Return VCountable
  /\ enabled (VNode 1)
       (snd (live (VString [0x61%Z]) (VFunction 7) no_options sample_page))
     = true.
Proof.
  apply (X20_live_enables_every_element [0x61%Z] 7 no_options sample_page 1).
  - left. reflexivity.
  - reflexivity.
Defined.

Lemma live_loop_calls (f : nat) (ops : options) (elements : list elem)
  (w : world) :
  exists new,
    calls (_loop elements (bind f ops) w) = calls w ++ new
    /\ map call_this new = rev elements
    /\ Forall
         (fun c => call_function c = f
                   /\ call_result c = _count (dom w (call_this c)) ops) new.
Proof.
  induction elements as [|x r [new [Hc [Ht Hf]]]].
  - exists []. cbn. rewrite app_nil_r. repeat split. constructor.
  - change (_loop (x :: r) (bind f ops) w)
      with (bind f ops x (_loop r (bind f ops) w)).
    destruct (live_loop_frame f ops r w) as [_ [Hd _]].
    exists (new ++ [call_of_bind f ops x (_loop r (bind f ops) w)]).
    rewrite bind_calls, Hc, <- app_assoc. split; [reflexivity|].
    split.
    + rewrite map_app, Ht. reflexivity.
    + apply Forall_app. split; [exact Hf|].
      constructor; [|constructor]. cbn. rewrite Hd. split; reflexivity.
Qed.

(** X21: a successful [live] calls the callback once for each element
    found, from the last element of the list to the first, each time with
    the element as receiver and the counts of its text as argument. *)
Theorem X21_live_calls_back_once_per_element (s : jsstring) (f : nat)
  (options : options_arg) (w : world) :
  querySelectorAll w s <> [] ->
  exists new,
    calls (snd (live (VString s) (VFunction f) options w)) = calls w ++ new
    /\ map call_this new = rev (querySelectorAll w s)
    /\ Forall
         (fun c =>
            call_function c = f
            /\ call_result c
               = _count (dom w (call_this c)) (_extendDefaults options))
         new.
Proof.
  intros H. rewrite (live_ok s f options w H). cbn [snd].
  apply live_loop_calls.
Qed.

Lemma X21_live_calls_back_once_per_element_witness :
  exists new,
    calls (snd (live (VString [0x61%Z]) (VFunction 7) no_options sample_page))
    = calls sample_page ++ new
    /\ map call_this new = rev (querySelectorAll sample_page [0x61%Z])
    /\ Forall
         (fun c =>
            call_function c = 7
            /\ call_result c
               = _count (dom sample_page (call_this c))
                   (_extendDefaults no_options))
         new.
Proof.
  apply (X21_live_calls_back_once_per_element [0x61%Z] 7 no_options
           sample_page).
  discriminate.
Defined.

(** *** [once] *)

Lemma once_loop_calls (f : nat) (ops : options_arg) (elements : list elem)
  (w : world) :
  calls
    (_loop elements
       (fun element w' =>
          call_callback f element
            (_count (dom w' element) (_extendDefaults ops)) w') w)
  = calls w
    ++ map (call_of_once f (_extendDefaults ops) w) (rev elements).
Proof.
  induction elements as [|x r IH]; [cbn; rewrite app_nil_r; reflexivity|].
  pose proof (once_loop_frame f ops r w) as O. cbv zeta in O.
  destruct O as [Ol [Os [_ [Od _]]]].
  unfold _loop in *. cbn [fold_right rev]. unfold call_callback at 1.
  cbn [record_call calls]. rewrite IH, Ol, Os, Od, map_app, <- app_assoc.
  reflexivity.
Qed.

(** X22: a successful [once] calls the callback once for each element
    found, from the last to the first, with the element as receiver and
    the counts of its text as argument, and returns the Countable
    object. *)
Theorem X22_once_calls_back_once_per_element (s : jsstring) (f : nat)
  (options : options_arg) (w : world) :
  querySelectorAll w s <> [] ->
  fst (once (VString s) (VFunction f) options w) = Return VCountable
  /\ calls (snd (once (VString s) (VFunction f) options w))
     = calls w
       ++ map (call_of_once f (_extendDefaults options) w)
            (rev (querySelectorAll w s)).
Proof.
  intros H. unfold once. cbn [_query].
  pose proof (validate_string_function s f _ w H) as V.
  pose proof (validate_ok_world _ _ _ _ V) as W.
  destruct (_validateArguments _ _ _ w) as [v w1]. cbn in V, W. subst.
  cbn [negb fst snd]. split; [reflexivity|]. apply once_loop_calls.
Qed.

Lemma X22_once_calls_back_once_per_element_witness :
  fst (once (VString [0x61%Z]) (VFunction 7) no_options sample_page)
  = Return VCountable
  /\ calls (snd (once (VString [0x61%Z]) (VFunction 7) no_options
                  sample_page))
     = calls sample_page
       ++ map (call_of_once 7 (_extendDefaults no_options) sample_page)
            (rev (querySelectorAll sample_page [0x61%Z])).
Proof.
  apply (X22_once_calls_back_once_per_element [0x61%Z] 7 no_options
           sample_page).
  discriminate.
Defined.

(** *** [live] and then [die] *)

Lemma live_loop_registry (f : nat) (ops : options) (elements : list elem)
  (w : world) :
  exists added,
    _liveElements (_loop elements (bind f ops) w) = _liveElements w ++ added
    /\ map element added = rev elements.
Proof.
  induction elements as [|x r [added [Hl Hm]]].
  - exists []. cbn. rewrite app_nil_r. split; reflexivity.
  - change (_loop (x :: r) (bind f ops) w)
      with (bind f ops x (_loop r (bind f ops) w)).
    exists (added ++ [binding_of_bind f ops x (_loop r (bind f ops) w)]).
    rewrite bind_liveElements, Hl, <- app_assoc, map_app, Hm.
    split; reflexivity.
Qed.

Lemma die_loop_registry (elements : list elem) (w : world) :
  consistent w ->
  _liveElements (_loop elements unbind w)
  = fold_right remove_first (_liveElements w) elements.
Proof.
  intros C. induction elements as [|x r IH]; [reflexivity|].
  change (_loop (x :: r) unbind w) with (unbind x (_loop r unbind w)).
  rewrite unbind_liveElements by (apply die_loop_consistent; exact C).
  rewrite IH. reflexivity.
Qed.

Lemma remove_first_appended (x : elem) (l t : list binding) (b : binding) :
  filter (is_for x) l = [] -> element b = x ->
  remove_first x (l ++ b :: t) = l ++ t.
Proof.
  intros H Hb. induction l as [|a l IH].
  - cbn. unfold is_for. rewrite Hb, Nat.eqb_refl. reflexivity.
  - cbn [filter] in H. cbn [app remove_first].
    destruct (is_for x a); [discriminate|]. rewrite IH by exact H.
    reflexivity.
Qed.

Lemma remove_firsts_appended (r : list elem) (l : list binding) :
  (forall x, In x r -> filter (is_for x) l = []) ->
  forall added t,
    map element added = rev r ->
    fold_right remove_first (l ++ added ++ t) r = l ++ t.
Proof.
  induction r as [|x r IH]; intros H added t Hm.
  - destruct added; [reflexivity | discriminate].
  - cbn [rev] in Hm. apply map_eq_app in Hm.
    destruct Hm as [a1 [a2 [-> [H1 H2]]]].
    destruct a2 as [|b [|? ?]]; try discriminate.
    cbn in H2. injection H2 as Hb.
    cbn [fold_right]. rewrite <- app_assoc. cbn [app].
    rewrite (IH (fun y Hy => H y (or_intror Hy)) a1 (b :: t) H1).
    apply remove_first_appended; [apply H; left; reflexivity | exact Hb].
Qed.

Lemma invalid_fields (m : invocation) (w : world) :
  validation_of m w = false ->
  _liveElements (snd (invoke m w)) = _liveElements w
  /\ listeners (snd (invoke m w)) = listeners w
  /\ querySelectorAll (snd (invoke m w)) = querySelectorAll w.
Proof.
  intros H. destruct (invoke_invalid m w H) as [els [sel [cb ->]]].
  cbn [snd].
  destruct (validate_fields sel cb els w) as [Hq [_ [_ [Hl [Hs _]]]]].
  repeat split; assumption.
Qed.

Lemma invoke_dom (m : invocation) (v : world) :
  dom (snd (invoke m v)) = dom v.
Proof.
  destruct m as [sel cb o|sel|sel cb o]; cbn [invoke].
  - unfold live.
    pose proof (validate_fields sel cb (_query sel v) v) as V.
    destruct (_validateArguments _ _ _ v) as [ok v1]. cbn [snd] in V.
    destruct V as [_ [Hd _]].
    destruct ok; cbn [negb]; [|exact Hd].
    destruct cb; try exact Hd. cbn [snd].
    destruct (live_loop_frame f (_extendDefaults o) (_query sel v) v1)
      as [_ [-> _]].
    exact Hd.
  - unfold die.
    pose proof (validate_fields sel (VFunction (next_function v))
                  (_query sel v) v) as V.
    destruct (_validateArguments _ _ _ v) as [ok v1]. cbn [snd] in V.
    destruct V as [_ [Hd _]].
    destruct ok; cbn [negb snd]; [|exact Hd].
    destruct (die_loop_frame (_query sel v) v1) as [_ [-> _]]. exact Hd.
  - unfold once.
    pose proof (validate_fields sel cb (_query sel v) v) as V.
    destruct (_validateArguments _ _ _ v) as [ok v1]. cbn [snd] in V.
    destruct V as [_ [Hd _]].
    destruct ok; cbn [negb]; [|exact Hd].
    destruct cb; try exact Hd. cbn [snd].
    pose proof (once_loop_frame f o (_query sel v) v1) as O.
    cbv zeta in O. destruct O as [_ [_ [_ [-> _]]]]. exact Hd.
Qed.

(** X23: on elements that have no entry, [live] and then [die] with the
    same selector give back the registry and the listeners as they were
    before. *)
Theorem X23_live_then_die_restores_registry (s : jsstring) (f : nat)
  (options : options_arg) (w : world) :
  consistent w ->
  (forall e, In e (querySelectorAll w s) -> bindings_of e w = []) ->
  _liveElements
    (snd (die (VString s) (snd (live (VString s) (VFunction f) options w))))
  = _liveElements w
  /\ forall e,
      listeners
        (snd (die (VString s)
                (snd (live (VString s) (VFunction f) options w)))) e
      = listeners w e.
Proof.
  intros C H.
  assert (G : _liveElements
                (snd (die (VString s)
                        (snd (live (VString s) (VFunction f) options w))))
              = _liveElements w).
  { destruct (list_eq_dec Nat.eq_dec (querySelectorAll w s) []) as [Q|Hne].
    - assert (V1 : validation_of (Live (VString s) (VFunction f) options) w
                   = false).
      { unfold validation_of, valid, _validateArguments, _query. cbn.
        rewrite Q. reflexivity. }
      destruct (invalid_fields _ w V1) as [Hl [_ Hq]]. cbn [invoke] in Hl, Hq.
      set (w1 := snd (live (VString s) (VFunction f) options w)) in *.
      assert (V2 : validation_of (Die (VString s)) w1 = false).
      { unfold validation_of, valid, _validateArguments, _query. cbn.
        rewrite Hq, Q. reflexivity. }
      destruct (invalid_fields _ w1 V2) as [Hl2 _]. cbn [invoke] in Hl2.
      rewrite Hl2, Hl. reflexivity.
    - rewrite (live_ok s f options w Hne). cbn [snd].
      set (ops := _extendDefaults options).
      set (w1 := _loop (querySelectorAll w s) (bind f ops) w).
      destruct (live_loop_frame f ops (querySelectorAll w s) w) as [Hq _].
      fold w1 in Hq.
      assert (C1 : consistent w1) by (apply live_loop_consistent; exact C).
      rewrite (die_ok s w1) by (rewrite Hq; exact Hne). cbn [snd].
      rewrite Hq, (die_loop_registry _ w1 C1).
      destruct (live_loop_registry f ops (querySelectorAll w s) w)
        as [added [Hl Hm]].
      fold w1 in Hl. rewrite Hl.
      pose proof (remove_firsts_appended (querySelectorAll w s)
                    (_liveElements w) H added [] Hm) as R.
      rewrite !app_nil_r in R. exact R. }
  split; [exact G|]. intros e.
  set (w2 := snd (die (VString s)
                    (snd (live (VString s) (VFunction f) options w)))) in *.
  assert (C2 : consistent w2).
  { apply (invoke_consistent (Die (VString s))).
    apply (invoke_consistent (Live (VString s) (VFunction f) options)).
    exact C. }
  assert (D : dom w2 = dom w).
  { unfold w2.
    exact (eq_trans
             (invoke_dom (Die (VString s)) _)
             (invoke_dom (Live (VString s) (VFunction f) options) w)). }
  rewrite (attached w2 C2), (attached w C). unfold expected_listeners.
  rewrite D, (bindings_of_ext e w w2 G). reflexivity.
Qed.

Lemma X23_live_then_die_restores_registry_witness :
  _liveElements
    (snd (die sel_a (snd (live sel_a (VFunction 7) no_options sample_page))))
  = _liveElements sample_page
  /\ forall e,
      listeners
        (snd (die sel_a
                (snd (live sel_a (VFunction 7) no_options sample_page)))) e
      = listeners sample_page e.
Proof.
  apply (X23_live_then_die_restores_registry [0x61%Z] 7 no_options
           sample_page).
  - exact sample_page_consistent.
  - intros e _. reflexivity.
Defined.

(** *** Reachable worlds *)

Lemma sample_reachable : reachable bound_twice.
Proof.
  apply (reach_invoke (Live (VString [0x62%Z]) (VFunction 7) no_options)).
  apply (reach_invoke (Live (VString [0x62%Z]) (VFunction 7) no_options)).
  apply reach_initial.
Qed.

(** X24: a call of [live], [die] or [once], on elements whose text is a
    string and with a callback that does not call back into Countable,
    keeps the listeners matched with the registry: if beforehand the
    listeners of every element are the handlers of its entries, oldest
    first, and no two entries hold the same handler, then so it is
    afterwards. *)
Theorem X24_calls_keep_listeners_matched (m : invocation) (w : world)
  (e : elem) :
  consistent w ->
  listeners (snd (invoke m w)) e = expected_listeners (snd (invoke m w)) e
  /\ NoDup (ids (_liveElements (snd (invoke m w)))).
Proof.
  intros C. pose proof (invoke_consistent m w C) as C'.
  split; [apply (attached _ C') | apply (distinct _ C')].
Qed.

Lemma X24_calls_keep_listeners_matched_witness :
  listeners (snd (invoke (Die sel_b) bound_twice)) 2
  = expected_listeners (snd (invoke (Die sel_b) bound_twice)) 2
  /\ NoDup (ids (_liveElements (snd (invoke (Die sel_b) bound_twice)))).
Proof.
  apply (X24_calls_keep_listeners_matched (Die sel_b) bound_twice 2).
  exact bound_twice_consistent.
Defined.

Lemma owned_ext (w w' : world) :
  listeners w' = listeners w -> owned w -> owned w'.
Proof. intros H O e h. rewrite H. apply O. Qed.

Lemma bind_owned (f : nat) (ops : options) (x : elem) (w : world) :
  owned w -> owned (bind f ops x w).
Proof.
  intros O e h. unfold bind, addEventListener, attachEvent, update. cbn.
  assert (G : In h (if e =? x
                    then listeners w x
                         ++ [{| h_id := next_function w; h_element := x;
                                h_callback := f; h_ops := ops |}]
                    else listeners w e) -> h_element h = e).
  { destruct (Nat.eqb_spec e x) as [->|_]; [|apply O].
    intros H. apply in_app_or in H. destruct H as [H|[<-|[]]];
      [apply O, H | reflexivity]. }
  destruct (api (dom w x)); [destruct (existsb _ _)| |]; cbn;
    try exact G; apply O.
Qed.

Lemma unbind_owned (x : elem) (w : world) : owned w -> owned (unbind x w).
Proof.
  intros O e h. unfold unbind. destruct (_loop _ _ _) as [b|]; [|apply O].
  unfold detachEvent, removeEventListener, update.
  assert (G : In h (if e =? x
                    then filter
                           (fun g => negb (same_function (handler b) g))
                           (listeners w x)
                    else listeners w e) -> h_element h = e).
  { destruct (Nat.eqb_spec e x) as [->|_]; [|apply O].
    intros H. apply filter_In in H. apply O, H. }
  destruct (api (dom w x)); cbn; try exact G; apply O.
Qed.

Lemma live_loop_owned (f : nat) (ops : options) (elements : list elem)
  (w : world) :
  owned w -> owned (_loop elements (bind f ops) w).
Proof.
  intros O. unfold _loop. induction elements as [|x r IH]; [exact O|].
  cbn [fold_right]. apply bind_owned, IH.
Qed.

Lemma die_loop_owned (elements : list elem) (w : world) :
  owned w -> owned (_loop elements unbind w).
Proof.
  intros O. unfold _loop. induction elements as [|x r IH]; [exact O|].
  cbn [fold_right]. apply unbind_owned, IH.
Qed.

Lemma invoke_owned (m : invocation) (w : world) :
  owned w -> owned (snd (invoke m w)).
Proof.
  intros O.
  destruct m as [sel cb o|sel|sel cb o]; cbn [invoke].
  - unfold live.
    pose proof (validate_fields sel cb (_query sel w) w) as V.
    destruct (_validateArguments _ _ _ w) as [ok w1]. cbn [snd] in V.
    destruct V as [_ [_ [_ [_ [Hs _]]]]].
    pose proof (owned_ext w w1 Hs O) as O1.
    destruct ok; cbn [negb]; [|exact O1].
    destruct cb; try exact O1. cbn [snd].
    apply live_loop_owned, O1.
  - unfold die.
    pose proof (validate_fields sel (VFunction (next_function w))
                  (_query sel w) w) as V.
    destruct (_validateArguments _ _ _ w) as [ok w1]. cbn [snd] in V.
    destruct V as [_ [_ [_ [_ [Hs _]]]]].
    pose proof (owned_ext w w1 Hs O) as O1.
    destruct ok; cbn [negb snd]; [|exact O1].
    apply die_loop_owned, O1.
  - unfold once.
    pose proof (validate_fields sel cb (_query sel w) w) as V.
    destruct (_validateArguments _ _ _ w) as [ok w1]. cbn [snd] in V.
    destruct V as [_ [_ [_ [_ [Hs _]]]]].
    pose proof (owned_ext w w1 Hs O) as O1.
    destruct ok; cbn [negb]; [|exact O1].
    destruct cb; try exact O1. cbn [snd].
    pose proof (once_loop_frame f o (_query sel w) w1) as F.
    cbv zeta in F. destruct F as [_ [Fs _]].
    apply (owned_ext w1); assumption.
Qed.

Lemma reachable_owned (w : world) : reachable w -> owned w.
Proof.
  induction 1 as [qsa d console|m w _ IH|e s w _ IH|e w _ IH].
  - intros e h H. destruct H.
  - apply invoke_owned, IH.
  - apply (owned_ext w); [reflexivity | exact IH].
  - destruct (run_handlers_frame (listeners w e) w) as [_ [Hs _]].
    apply (owned_ext w); [exact Hs | exact IH].
Qed.

Lemma run_handlers_calls_exact (l : list handler_fn) (w : world) :
  calls (fold_left (fun w' h => run_handler h w') l w)
  = calls w ++ map (call_of_handler w) l.
Proof.
  revert w. induction l as [|h r IH]; intros w;
    [cbn; rewrite app_nil_r; reflexivity|].
  cbn [fold_left map]. rewrite IH.
  change (calls (run_handler h w)) with (calls w ++ [call_of_handler w h]).
  change (map (call_of_handler (run_handler h w)) r)
    with (map (call_of_handler w) r).
  rewrite <- app_assoc. reflexivity.
Qed.

Lemma edited_text (e : elem) (s : jsstring) (w : world) :
  element_text (dom (edit e s w) e) = s.
Proof.
  unfold edit. cbn. rewrite Nat.eqb_refl. unfold element_text. cbn.
  destruct (value (dom w e)); [reflexivity|]. destruct (truthy s); reflexivity.
Qed.

(** X25: live counting follows the text.  In a reachable world, once the
    user has edited the text of an element, a change event calls the
    callback of each of its listeners once, in order of registration,
    with the element as receiver and the counts of the new text, under
    the options given when that listener was bound. *)
Theorem X25_change_event_reports_new_text (w : world) (e : elem)
  (s : jsstring) :
  reachable w ->
  calls (dispatch e (edit e s w))
  = calls w ++ map (call_on_text w e s) (listeners w e).
Proof.
  intros R. pose proof (reachable_owned w R) as O.
  unfold dispatch. rewrite run_handlers_calls_exact.
  change (calls (edit e s w)) with (calls w).
  change (listeners (edit e s w) e) with (listeners w e).
  f_equal. apply map_ext_in. intros h Hh.
  unfold call_of_handler, call_on_text. rewrite (O e h Hh).
  unfold _count. rewrite edited_text. reflexivity.
Qed.

Lemma X25_change_event_reports_new_text_witness :
  calls (dispatch 2 (edit 2 a_n_b bound_twice))
  = calls bound_twice ++ map (call_on_text bound_twice 2 a_n_b)
                           (listeners bound_twice 2).
Proof.
  apply (X25_change_event_reports_new_text bound_twice 2 a_n_b).
  exact sample_reachable.
Defined.

End RegistryCoverage.
